(** * Senssun BLE body scale: payload decoder and connection manager

    A shallow embedding of [sensor.py] (class [SenssunScaleSensor]) and the
    properties of its notification decoder, its notification handler and its
    connect / retry / disconnect life cycle.

    Python integers are [Z]; a notification payload is a [list byte]; the
    entity's attributes are a record; the BLE client objects, the event
    loop's timers and its tasks live in explicit stores indexed by position;
    an exception is a value of [exn] carried by [outcome]. *)

From Stdlib Require Import ZArith Lia Bool Strings.Byte.
From stdpp Require Import base list strings gmap.

Local Open Scope Z_scope.

(** ** Exceptions and results *)

Inductive exn : Type :=
| StructError                    (* struct.error *)
| NameError (name : string)      (* NameError: name '...' is not defined *)
| TypeError
| AttributeError
| TimeoutError                   (* asyncio.TimeoutError *)
| BleakError                     (* bleak.exc.BleakError *)
| OtherException (tag : nat).    (* any other subclass of Exception *)

Inductive outcome (A : Type) : Type :=
| Ret (a : A)
| Raise (e : exn).
Arguments Ret {A} a.
Arguments Raise {A} e.

#[global] Instance outcome_ret : MRet outcome := fun A a => Ret a.
#[global] Instance outcome_bind : MBind outcome := fun A B k m =>
  match m with
  | Ret a => k a
  | Raise e => Raise e
  end.

(** What a Python expression of the decoder evaluates to: [None] or an int. *)
Inductive pyval : Type :=
| PyNone
| PyInt (z : Z).

(** ** Bytes and [struct.unpack] *)

Definition byte_val (b : byte) : Z := Z.of_N (Byte.to_N b).

(** Format [b]: one byte read as a two's complement number. *)
Definition int8 (b : byte) : Z :=
  let u := byte_val b in
  if u <? 128 then u else u - 256.

(** Format [>h]: two bytes, most significant first, two's complement. *)
Definition int16_be (hi lo : byte) : Z :=
  let u := Z.lor (Z.shiftl (byte_val hi) 8) (byte_val lo) in
  if u <? 32768 then u else u - 65536.

(** [data[lo:hi]] for [0 <= lo <= hi]: slicing never raises, it truncates. *)
Definition slice {A : Type} (lo hi : nat) (l : list A) : list A :=
  take (hi - lo) (drop lo l).

(** [unpack(">bhhb", buf)]: the buffer must hold exactly
    [calcsize(">bhhb") = 6] bytes, otherwise [struct.error] is raised. *)
Definition unpack_bhhb (buf : list byte) : outcome (Z * Z * Z * Z) :=
  match buf with
  | [b0; b1; b2; b3; b4; b5] =>
      Ret (int8 b0, int16_be b1 b2, int16_be b3 b4, int8 b5)
  | _ => Raise StructError
  end.

(** ** Name resolution

    A free name in a method body is looked up in the function's locals, then
    in the module's globals, then in the builtins.  The body of the enclosing
    [class] statement is not one of these scopes: what is defined there is
    reachable only as an attribute of the class or of [self]. *)

Inductive pyobj : Type :=
| ObjOpaque                 (* a module, class, logger, string or coroutine function *)
| ObjIntFun (f : Z -> Z).   (* a function of one int returning an int *)

(** Lines 57-59, a [def] in the class body taking [ctr1] as its only
    parameter: [int((ctr1 & 0xA0) == 0xA0)]. *)
Definition read_stable (ctr1 : Z) : Z :=
  Z.b2z (Z.land ctr1 0xA0 =? 0xA0).

(** The names bound at module level: the imports of lines 1-8, [_LOGGER],
    [NOTIFY_CHAR], [async_setup_entry] and the class. *)
Definition module_globals : gmap string pyobj :=
  list_to_map
    [ ("logging", ObjOpaque); ("asyncio", ObjOpaque);
      ("SensorEntity", ObjOpaque); ("UnitOfMass", ObjOpaque);
      ("callback", ObjOpaque); ("BleakClient", ObjOpaque);
      ("BleakError", ObjOpaque); ("unpack", ObjOpaque);
      ("_LOGGER", ObjOpaque); ("NOTIFY_CHAR", ObjOpaque);
      ("async_setup_entry", ObjOpaque); ("SenssunScaleSensor", ObjOpaque) ]%string.

(** The names bound by the class body, lines 23-165. *)
Definition class_namespace : gmap string pyobj :=
  list_to_map
    [ ("__init__", ObjOpaque); ("name", ObjOpaque); ("unique_id", ObjOpaque);
      ("state", ObjOpaque); ("unit_of_measurement", ObjOpaque);
      ("available", ObjOpaque); ("read_stable", ObjIntFun read_stable);
      ("decode_weight", ObjOpaque); ("notification_handler", ObjOpaque);
      ("connect", ObjOpaque); ("_schedule_retry", ObjOpaque);
      ("_retry_connect", ObjOpaque); ("disconnect", ObjOpaque);
      ("_disconnect", ObjOpaque); ("async_added_to_hass", ObjOpaque);
      ("async_will_remove_from_hass", ObjOpaque);
      ("async_update", ObjOpaque) ]%string.

(** The module's globals with the helper of lines 57-59 also bound at module
    level: the namespace in which the call on line 70 finds it. *)
Definition helper_globals : gmap string pyobj :=
  <["read_stable"%string := ObjIntFun read_stable]> module_globals.

(** Calling the global [name] on one int. *)
Definition call_global (globals : gmap string pyobj) (name : string) (arg : Z)
  : outcome Z :=
  match globals !! name with
  | None => Raise (NameError name)
  | Some (ObjIntFun f) => Ret (f arg)
  | Some ObjOpaque => Raise TypeError
  end.

(** ** The decoder, lines 61-78 *)

Definition decode_weight (globals : gmap string pyobj) (data : list byte)
  : outcome pyval :=
  let xvalue := slice 9 15 data in
  '(_, weight_raw, _, ctr1) ← unpack_bhhb xvalue;
  stable ← call_global globals "read_stable" ctr1;
  if stable =? 0 then Ret PyNone
  else
    let weight_grams := weight_raw * 100 in
    Ret (PyInt weight_grams).

(** The payload of the specification's scenario,
    [00 00 00 00 00 00 00 00 00 01 00 05 00 00 A0]. *)
Definition scenario_payload : list byte :=
  [x00; x00; x00; x00; x00; x00; x00; x00; x00; x01; x00; x05; x00; x00; xa0]%byte.

(** The same payload with control byte [00]. *)
Definition unstable_payload : list byte :=
  [x00; x00; x00; x00; x00; x00; x00; x00; x00; x01; x00; x05; x00; x00; x00]%byte.

(** ** The entity and its collaborators

    [self] holds the attributes assigned in [__init__].  An attribute that
    refers to an object (a BLE client, a timer handle, a task) holds the
    object's position in the store of its kind, so that two references to
    one object see the same flags. *)

Record sensor : Type := Sensor {
  _address : string;
  _state : pyval;
  _available : bool;
  _client : option nat;
  _disconnect_timer : option nat;
  _connect_lock : bool;              (* [asyncio.Lock.locked()] *)
  _connection_retry_interval : Z;
  _retry_task : option nat
}.

(** A [BleakClient] object. *)
Record client : Type := Client {
  c_address : string;
  is_connected : bool;
  notifying : bool                   (* [start_notify] has succeeded on it *)
}.

(** A handle returned by [hass.loop.call_later(delay, self.disconnect)]. *)
Record timer : Type := Timer {
  t_delay : Z;
  t_cancelled : bool
}.

(** The two coroutines the entity wraps in tasks. *)
Inductive coro : Type :=
| RetryConnect       (* [self._retry_connect()], line 131 *)
| Disconnect.        (* [self._disconnect()], line 139 *)

(** The states of an asyncio task: not finished (yet to start, suspended or
    running), cancelled, finished. *)
Inductive task_status : Type :=
| Pending
| Cancelled
| Done.

Record task : Type := Task {
  k_coro : coro;
  k_status : task_status
}.

Record world : Type := World {
  self : sensor;
  clients : list client;             (* every BleakClient created so far *)
  timers : list timer;               (* every handle of [call_later] *)
  tasks : list task;                 (* every task created *)
  connect_calls : nat;               (* calls of [BleakClient.connect] *)
  close_calls : nat;                 (* calls of [BleakClient.disconnect] *)
  written : list (pyval * bool)      (* states pushed by [async_write_ha_state] *)
}.

(** Line 23-35. *)
Definition __init__ (address : string) : world :=
  {| self := {| _address := address;
                _state := PyNone;
                _available := false;
                _client := None;
                _disconnect_timer := None;
                _connect_lock := false;
                _connection_retry_interval := 60;
                _retry_task := None |};
     clients := []; timers := []; tasks := [];
     connect_calls := O; close_calls := O; written := [] |}.

(** *** Attribute assignment *)

Definition set_self (s : sensor) (w : world) : world :=
  World s (clients w) (timers w) (tasks w) (connect_calls w) (close_calls w)
        (written w).
Definition set_clients (cs : list client) (w : world) : world :=
  World (self w) cs (timers w) (tasks w) (connect_calls w) (close_calls w)
        (written w).
Definition set_timers (ts : list timer) (w : world) : world :=
  World (self w) (clients w) ts (tasks w) (connect_calls w) (close_calls w)
        (written w).
Definition set_tasks (ks : list task) (w : world) : world :=
  World (self w) (clients w) (timers w) ks (connect_calls w) (close_calls w)
        (written w).

Definition assign_state (v : pyval) (s : sensor) : sensor :=
  Sensor (_address s) v (_available s) (_client s) (_disconnect_timer s)
         (_connect_lock s) (_connection_retry_interval s) (_retry_task s).
Definition assign_available (b : bool) (s : sensor) : sensor :=
  Sensor (_address s) (_state s) b (_client s) (_disconnect_timer s)
         (_connect_lock s) (_connection_retry_interval s) (_retry_task s).
Definition assign_client (c : option nat) (s : sensor) : sensor :=
  Sensor (_address s) (_state s) (_available s) c (_disconnect_timer s)
         (_connect_lock s) (_connection_retry_interval s) (_retry_task s).
Definition assign_disconnect_timer (t : option nat) (s : sensor) : sensor :=
  Sensor (_address s) (_state s) (_available s) (_client s) t
         (_connect_lock s) (_connection_retry_interval s) (_retry_task s).
Definition assign_connect_lock (b : bool) (s : sensor) : sensor :=
  Sensor (_address s) (_state s) (_available s) (_client s)
         (_disconnect_timer s) b (_connection_retry_interval s) (_retry_task s).
Definition assign_retry_task (k : option nat) (s : sensor) : sensor :=
  Sensor (_address s) (_state s) (_available s) (_client s)
         (_disconnect_timer s) (_connect_lock s) (_connection_retry_interval s) k.

(** ** Statements: state passing with exceptions

    A statement maps the world before it to the world after it and either a
    value or the exception it raised; what was assigned before a [raise]
    stays assigned. *)

Definition stmt (A : Type) : Type := world -> world * outcome A.

#[global] Instance stmt_ret : MRet stmt := fun A a w => (w, Ret a).
#[global] Instance stmt_bind : MBind stmt := fun A B k m w =>
  match m w with
  | (w', Ret a) => k a w'
  | (w', Raise e) => (w', Raise e)
  end.

Definition lift {A : Type} (o : outcome A) : stmt A := fun w => (w, o).
Definition raise {A : Type} (e : exn) : stmt A := fun w => (w, Raise e).
Definition get {A : Type} (f : sensor -> A) : stmt A :=
  fun w => (w, Ret (f (self w))).
Definition assign (f : sensor -> sensor) : stmt unit :=
  fun w => (set_self (f (self w)) w, Ret tt).
Definition modify (f : world -> world) : stmt unit :=
  fun w => (f w, Ret tt).
Definition skip : stmt unit := mret tt.

(** [try: body except Exception as e: handler(e)]. *)
Definition try_except {A : Type} (body : stmt A) (handler : exn -> stmt A)
  : stmt A :=
  fun w =>
    match body w with
    | (w', Ret a) => (w', Ret a)
    | (w', Raise e) => handler e w'
    end.

(** [try: body finally: final]. *)
Definition try_finally {A : Type} (body : stmt A) (final : stmt unit)
  : stmt A :=
  fun w =>
    match body w with
    | (w', r) =>
        match final w' with
        | (w'', Ret _) => (w'', r)
        | (w'', Raise e) => (w'', Raise e)
        end
    end.

(** ** The collaborators' primitives *)

(** [hass.loop.call_later(delay, self.disconnect)]: a new handle. *)
Definition call_later (delay : Z) : stmt nat :=
  fun w => (set_timers (timers w ++ [Timer delay false]) w,
            Ret (length (timers w))).

(** [TimerHandle.cancel()]. *)
Definition timer_cancel (h : nat) : stmt unit :=
  modify (fun w =>
    set_timers (alter (fun t => Timer (t_delay t) true) h (timers w)) w).

(** [hass.async_create_task(coro)] and [asyncio.create_task(coro)]. *)
Definition create_task (c : coro) : stmt nat :=
  fun w => (set_tasks (tasks w ++ [Task c Pending]) w,
            Ret (length (tasks w))).

(** [Task.cancel()]: a task that has not finished is cancelled; on a
    finished one the call changes nothing. *)
Definition cancel_status (s : task_status) : task_status :=
  match s with
  | Pending => Cancelled
  | Cancelled => Cancelled
  | Done => Done
  end.

Definition task_cancel (h : nat) : stmt unit :=
  modify (fun w =>
    set_tasks (alter (fun k => Task (k_coro k) (cancel_status (k_status k))) h
                     (tasks w)) w).

(** The coroutine of task [h] has come to its end ([Task.__step]): the task
    is done, unless [cancel()] was called on it while it ran, and then it
    ends cancelled. *)
Definition finish_status (s : task_status) : task_status :=
  match s with
  | Pending => Done
  | Cancelled => Cancelled
  | Done => Done
  end.

Definition task_finished (h : nat) : stmt unit :=
  modify (fun w =>
    set_tasks (alter (fun k => Task (k_coro k) (finish_status (k_status k))) h
                     (tasks w)) w).

(** [BleakClient(self._address, timeout=10.0)]: a new, unconnected client. *)
Definition BleakClient : stmt nat :=
  fun w => (set_clients (clients w ++ [Client (_address (self w)) false false]) w,
            Ret (length (clients w))).

(** [c.is_connected] for the client object at position [c]. *)
Definition connected_at (c : nat) (w : world) : bool :=
  match clients w !! c with
  | Some cl => is_connected cl
  | None => false
  end.

(** [self._client and self._client.is_connected], as a truth value. *)
Definition holds_connection (w : world) : bool :=
  match _client (self w) with
  | Some c => connected_at c w
  | None => false
  end.

Definition client_connected : stmt bool :=
  fun w => (w, Ret (holds_connection w)).

(** What the transport does to a client when an awaited call succeeds. *)
Definition transport_connected (c : nat) (w : world) : world :=
  set_clients (alter (fun cl => Client (c_address cl) true (notifying cl)) c
                     (clients w)) w.
Definition transport_notifying (c : nat) (w : world) : world :=
  set_clients (alter (fun cl => Client (c_address cl) (is_connected cl) true) c
                     (clients w)) w.
Definition transport_closed (c : nat) (w : world) : world :=
  set_clients (alter (fun cl => Client (c_address cl) false false) c
                     (clients w)) w.

Definition count_connect_call (w : world) : world :=
  World (self w) (clients w) (timers w) (tasks w) (S (connect_calls w))
        (close_calls w) (written w).
Definition count_close_call (w : world) : world :=
  World (self w) (clients w) (timers w) (tasks w) (connect_calls w)
        (S (close_calls w)) (written w).

(** [self.async_write_ha_state()]: the host reads [state] and [available]. *)
Definition async_write_ha_state : stmt unit :=
  modify (fun w =>
    World (self w) (clients w) (timers w) (tasks w) (connect_calls w)
          (close_calls w)
          (written w ++ [(_state (self w), _available (self w))])).

(** [round(x, 1)]: [None] has no [__round__], so [TypeError]; an int rounded
    to one decimal is the int itself. *)
Definition py_round1 (x : pyval) : outcome pyval :=
  match x with
  | PyNone => Raise TypeError
  | PyInt z => Ret (PyInt z)
  end.

(** ** The notification handler, lines 81-92

    Its [sender] argument is not used. *)

Definition notification_handler (globals : gmap string pyobj)
    (data : list byte) : stmt unit :=
  weight ← lift (decode_weight globals data);
  rounded ← lift (py_round1 weight);
  assign (assign_state rounded);;
  assign (assign_available true);;
  async_write_ha_state;;
  t ← get _disconnect_timer;
  match t with
  | Some h => timer_cancel h
  | None => skip
  end;;
  h ← call_later 60;
  assign (assign_disconnect_timer (Some h)).

(** ** Retry, lines 127-135 *)

Definition _schedule_retry : stmt unit :=
  k ← get _retry_task;
  match k with
  | Some h => task_cancel h
  | None => skip
  end;;
  h ← create_task RetryConnect;
  assign (assign_retry_task (Some h)).

(** ** Connecting, lines 94-125

    [connect] is a coroutine: it gives control back to the event loop while
    it waits for the lock, for [BleakClient.connect] (under [wait_for]) and
    for [start_notify].  [connect_pc] says where it is suspended; each
    function below runs it from one suspension to the next, and gets what
    the awaited transport call answered. *)

Inductive connect_pc : Type :=
| AtLock                        (* line 95: not yet inside [async with] *)
| AwaitConnect (c : nat)        (* line 101: in [connect()] of client [c] *)
| AwaitStartNotify (c : nat)    (* line 105: in [start_notify] of client [c] *)
| Returned.

(** Leaving the [async with] block, by [return], by its end or after an
    [except] clause. *)
Definition release_lock : stmt unit := assign (assign_connect_lock false).

(** The three [except] clauses, lines 114-125. *)
Definition connect_except (e : exn) : stmt unit :=
  match e with
  | TimeoutError =>                       (* line 114 *)
      assign (assign_available false);;
      _schedule_retry
  | BleakError =>                         (* line 118 *)
      assign (assign_available false);;
      _schedule_retry
  | _ =>                                  (* line 122: [except Exception] *)
      assign (assign_available false);;
      _schedule_retry
  end.

(** Lines 95-101, up to the first suspension.  While the lock is held the
    coroutine stays where it is. *)
Definition connect_begin : stmt connect_pc :=
  locked ← get _connect_lock;
  if locked : bool then mret AtLock
  else
    assign (assign_connect_lock true);;
    connected ← client_connected;
    if connected : bool then
      release_lock;;
      mret Returned
    else
      c ← BleakClient;
      assign (assign_client (Some c));;
      modify count_connect_call;;
      mret (AwaitConnect c).

(** Lines 101-105: [wait_for(connect())] on client [c] answered [r]. *)
Definition connect_resume_connect (c : nat) (r : outcome unit)
  : stmt connect_pc :=
  match r with
  | Raise e =>
      connect_except e;;
      release_lock;;
      mret Returned
  | Ret _ =>
      modify (transport_connected c);;
      assign (assign_available true);;
      cur ← get _client;
      match cur with
      | Some c' => mret (AwaitStartNotify c')
      | None =>                           (* [None.start_notify] *)
          connect_except AttributeError;;
          release_lock;;
          mret Returned
      end
  end.

(** Lines 105-112: [start_notify] on client [c] answered [r]. *)
Definition connect_resume_notify (c : nat) (r : outcome unit)
  : stmt connect_pc :=
  match r with
  | Raise e =>
      connect_except e;;
      release_lock;;
      mret Returned
  | Ret _ =>
      modify (transport_notifying c);;
      h ← call_later 60;
      assign (assign_disconnect_timer (Some h));;
      release_lock;;
      mret Returned
  end.

(** One caller running [connect] with nothing else scheduled in between:
    [rc] is the answer of [BleakClient.connect], [rn] that of
    [start_notify]. *)
Definition connect (rc rn : outcome unit) : stmt connect_pc :=
  pc ← connect_begin;
  match pc with
  | AwaitConnect c =>
      pc' ← connect_resume_connect c rc;
      match pc' with
      | AwaitStartNotify c' => connect_resume_notify c' rn
      | _ => mret pc'
      end
  | _ => mret pc
  end.

(** Lines 162-165. *)
Definition async_update (rc rn : outcome unit) : stmt connect_pc :=
  connected ← client_connected;
  if negb connected then connect rc rn else mret Returned.

(** Lines 152-154. *)
Definition async_added_to_hass (rc rn : outcome unit) : stmt connect_pc :=
  async_update rc rn.

(** Lines 133-135, as the event loop runs task [h] when [elapsed] seconds
    have passed since it was created: a cancelled or finished task does
    nothing, and [asyncio.sleep] returns only once the interval has gone
    by.  The task is unfinished for as long as its coroutine runs, so the
    [_schedule_retry] of a failing attempt cancels the very task that runs
    it; nothing suspends between that call and the end of the coroutine, and
    the task then ends cancelled instead of done. *)
Definition _retry_connect (h : nat) (elapsed : Z) (rc rn : outcome unit)
  : stmt unit :=
  fun w =>
    match tasks w !! h with
    | Some (Task RetryConnect Pending) =>
        if elapsed <? _connection_retry_interval (self w) then (w, Ret tt)
        else
          try_finally (_ ← async_update rc rn; skip) (task_finished h) w
    | _ => (w, Ret tt)
    end.

(** ** Disconnecting, lines 137-160 *)

(** Lines 137-139, the callback of the idle timer. *)
Definition disconnect : stmt unit :=
  connected ← client_connected;
  if connected : bool then
    _ ← create_task Disconnect;
    skip
  else skip.

(** [await self._client.disconnect()], the transport answering [r]. *)
Definition client_disconnect (r : outcome unit) : stmt unit :=
  cur ← get _client;
  match cur with
  | None => raise AttributeError          (* [None.disconnect] *)
  | Some c =>
      modify count_close_call;;
      match r with
      | Ret _ => modify (transport_closed c)
      | Raise e => raise e
      end
  end.

(** Lines 141-150. *)
Definition _disconnect (r : outcome unit) : stmt unit :=
  try_finally
    (try_except (client_disconnect r)
                (fun e => skip))           (* line 145: logged only *)
    (assign (assign_client None);;
     assign (assign_available false);;
     async_write_ha_state).

(** Lines 156-160. *)
Definition async_will_remove_from_hass (r : outcome unit) : stmt unit :=
  k ← get _retry_task;
  match k with
  | Some h => task_cancel h
  | None => skip
  end;;
  _disconnect r.

(** ** Several callers of [connect] on one event loop

    Each caller is a coroutine at its own [connect_pc]; the event loop runs
    one of them from its suspension to the next, in any order.  A caller
    waiting for the transport is resumed with whatever the transport
    answers, and the link of a client may drop at any time. *)

Record system : Type := System {
  sys_world : world;
  callers : list connect_pc
}.

Inductive step : system -> system -> Prop :=
| step_begin (s : system) (i : nat) (w' : world) (pc' : connect_pc) :
    callers s !! i = Some AtLock ->
    connect_begin (sys_world s) = (w', Ret pc') ->
    step s (System w' (<[i := pc']> (callers s)))
| step_connect (s : system) (i c : nat) (r : outcome unit)
    (w' : world) (pc' : connect_pc) :
    callers s !! i = Some (AwaitConnect c) ->
    connect_resume_connect c r (sys_world s) = (w', Ret pc') ->
    step s (System w' (<[i := pc']> (callers s)))
| step_notify (s : system) (i c : nat) (r : outcome unit)
    (w' : world) (pc' : connect_pc) :
    callers s !! i = Some (AwaitStartNotify c) ->
    connect_resume_notify c r (sys_world s) = (w', Ret pc') ->
    step s (System w' (<[i := pc']> (callers s)))
| step_link_lost (s : system) (c : nat) :
    step s (System (transport_closed c (sys_world s)) (callers s)).

(** The caller is inside the [async with] block. *)
Definition in_critical (pc : connect_pc) : Prop :=
  match pc with
  | AwaitConnect _ | AwaitStartNotify _ => True
  | AtLock | Returned => False
  end.

(** No client other than the one [self._client] refers to is connected. *)
Definition only_current_connected (w : world) : Prop :=
  forall c : nat, connected_at c w = true -> _client (self w) = Some c.

(** The lock is free and every caller is still to start. *)
Definition initial (s : system) : Prop :=
  _connect_lock (self (sys_world s)) = false /\
  (forall (i : nat) (pc : connect_pc), callers s !! i = Some pc -> pc = AtLock) /\
  only_current_connected (sys_world s).

(** What holds of every system reached from an initial one. *)
Definition exclusive (s : system) : Prop :=
  only_current_connected (sys_world s) /\
  (forall (i : nat) (pc : connect_pc),
      callers s !! i = Some pc -> in_critical pc ->
      _connect_lock (self (sys_world s)) = true) /\
  (forall (i c : nat),
      callers s !! i = Some (AwaitConnect c) ->
      _client (self (sys_world s)) = Some c) /\
  (forall (i j : nat) (pi pj : connect_pc),
      callers s !! i = Some pi -> callers s !! j = Some pj ->
      in_critical pi -> in_critical pj -> i = j) /\
  (_connect_lock (self (sys_world s)) = false ->
   forall (i : nat) (pc : connect_pc),
     callers s !! i = Some pc -> ~ in_critical pc).

(** At most one BLE connection is open. *)
Definition at_most_one_connection (w : world) : Prop :=
  forall c1 c2 : nat,
    connected_at c1 w = true -> connected_at c2 w = true -> c1 = c2.

(** ** Predicates on tasks and timers *)

(** Task [h] is a retry that has neither run nor been cancelled. *)
Definition pending_retry (w : world) (h : nat) : Prop :=
  tasks w !! h = Some (Task RetryConnect Pending).

(** The only retry that may still run is the one [self._retry_task] holds. *)
Definition retry_tracked (w : world) : Prop :=
  forall h : nat, pending_retry w h -> _retry_task (self w) = Some h.

(** Every timer handle of the loop has been cancelled. *)
Definition all_timers_cancelled (w : world) : Prop :=
  forall (h : nat) (t : timer), timers w !! h = Some t -> t_cancelled t = true.

(** A connect attempt that fails: in [BleakClient.connect], or, after it
    succeeded, in [start_notify]. *)
Definition connect_fails (rc rn : outcome unit) : Prop :=
  (exists e : exn, rc = Raise e) \/ (rc = Ret tt /\ exists e : exn, rn = Raise e).

(** ** Worlds used as examples *)

Definition fresh_world : world := __init__ "C8:B2:1E:00:00:01".

(** After [async_added_to_hass] with a transport that answers well. *)
Definition connected_world : world :=
  fst (async_added_to_hass (Ret tt) (Ret tt) fresh_world).

(** A 14-byte payload: the scenario's without its control byte. *)
Definition short_payload : list byte := take 14 scenario_payload.

(** The scenario's payload behind another header and followed by a byte. *)
Definition padded_payload : list byte :=
  [xff; x10; x20; x30; x40; x50; x60; x70; x80;
   x01; x00; x05; x00; x00; xa0; x99]%byte.

(** ** Worlds the methods leave

    Named so that the properties below can state them. *)

(** The timers after the handler has cancelled the handle it held. *)
Definition timers_after_cancel (w : world) : list timer :=
  match _disconnect_timer (self w) with
  | Some h => alter (fun t => Timer (t_delay t) true) h (timers w)
  | None => timers w
  end.

(** The tasks once [_schedule_retry] has cancelled the task it held. *)
Definition tasks_after_cancel (w : world) : list task :=
  match _retry_task (self w) with
  | Some h => alter (fun k => Task (k_coro k) (cancel_status (k_status k))) h
                    (tasks w)
  | None => tasks w
  end.

(** The world [_schedule_retry] leaves. *)
Definition scheduled (w : world) : world :=
  set_self (assign_retry_task (Some (length (tasks w))) (self w))
           (set_tasks (tasks_after_cancel w ++ [Task RetryConnect Pending]) w).

(** The world an [except] clause of [connect] leaves, lock released. *)
Definition failed (w : world) : world :=
  let w1 := scheduled (set_self (assign_available false (self w)) w) in
  set_self (assign_connect_lock false (self w1)) w1.

(** The world at the first suspension of an attempt. *)
Definition begun (w : world) : world :=
  count_connect_call
    (set_self (assign_client (Some (length (clients w)))
                             (assign_connect_lock true (self w)))
              (set_clients (clients w ++ [Client (_address (self w)) false false]) w)).

(** The world once [BleakClient.connect] on [c] has succeeded. *)
Definition linked (c : nat) (w : world) : world :=
  set_self (assign_available true (self w)) (transport_connected c w).

(** The world a successful attempt leaves once [start_notify] on [c] has
    succeeded: notifications on, idle timer armed, lock released. *)
Definition armed (c : nat) (w : world) : world :=
  let w1 := transport_notifying c w in
  let w2 := set_timers (timers w1 ++ [Timer 60 false]) w1 in
  set_self (assign_connect_lock false
              (assign_disconnect_timer (Some (length (timers w1))) (self w2)))
           w2.

(** Two callers on a fresh entity, both still to start. *)
Definition two_callers_start : system := System fresh_world [AtLock; AtLock].

(** The same two, the first past [connect()] and inside the lock, the second
    waiting for it. *)
Definition two_callers_linked : system :=
  System (linked 0 (begun fresh_world)) [AwaitStartNotify 0; AtLock].

(** ** The entity over time

    The events the entity reacts to, each handled to its end before the next
    one: a poll of the host, a notification, the idle timer's callback, the
    task that callback creates, a retry task, removal, and the loss of a
    client's link.  ([async_added_to_hass] is a poll.)  The transport's
    answers travel with the event.  The status of a task is followed for
    retry tasks only: a disconnect task is recorded when it is created, and
    its coroutine runs as [DisconnectTaskRuns]. *)

Inductive event : Type :=
| Poll (rc rn : outcome unit)                  (* [async_update], lines 162-165 *)
| Notification (data : list byte)              (* [notification_handler] *)
| IdleTimerFires                               (* [disconnect], lines 137-139 *)
| DisconnectTaskRuns (r : outcome unit)        (* [_disconnect], lines 141-150 *)
| RetryTaskRuns (h : nat) (elapsed : Z) (rc rn : outcome unit)
                                               (* [_retry_connect] *)
| Removed (r : outcome unit)                   (* [async_will_remove_from_hass] *)
| LinkLost (c : nat).

Definition react (globals : gmap string pyobj) (ev : event) (w : world) : world :=
  match ev with
  | Poll rc rn => fst (async_update rc rn w)
  | Notification data => fst (notification_handler globals data w)
  | IdleTimerFires => fst (disconnect w)
  | DisconnectTaskRuns r => fst (_disconnect r w)
  | RetryTaskRuns h elapsed rc rn => fst (_retry_connect h elapsed rc rn w)
  | Removed r => fst (async_will_remove_from_hass r w)
  | LinkLost c => transport_closed c w
  end.

Definition run (globals : gmap string pyobj) (evs : list event) (w : world)
  : world :=
  foldl (fun w ev => react globals ev w) w evs.

(** Timer [h] has been armed and not cancelled. *)
Definition pending_timer (w : world) (h : nat) : Prop :=
  exists d : Z, timers w !! h = Some (Timer d false).

(** The only timer not cancelled is the one [self._disconnect_timer] holds. *)
Definition timer_tracked (w : world) : Prop :=
  forall h : nat, pending_timer w h -> _disconnect_timer (self w) = Some h.

(** What holds of the entity between any two events. *)
Record steady (w : world) : Prop := Steady {
  steady_lock : _connect_lock (self w) = false;
  steady_retry : retry_tracked w;
  steady_interval : _connection_retry_interval (self w) = 60;
  steady_timers : Forall (fun t => t_delay t = 60) (timers w);
  steady_written :
    Forall (fun p : pyval * bool => p.2 = true -> exists z : Z, p.1 = PyInt z)
           (written w);
  steady_clients :
    Forall (fun cl => c_address cl = _address (self w)) (clients w);
  steady_calls : connect_calls w = length (clients w)
}.

(** The world the handler leaves once it has a reading [z]. *)
Definition notified (z : Z) (w : world) : world :=
  let s1 := assign_available true (assign_state (PyInt z) (self w)) in
  World (assign_disconnect_timer (Some (length (timers w))) s1)
        (clients w)
        (timers_after_cancel w ++ [Timer 60 false])
        (tasks w) (connect_calls w) (close_calls w)
        (written w ++ [(PyInt z, true)]).

(** The world the disconnect path leaves when the close call answered [r]. *)
Definition disconnected (r : outcome unit) (w : world) : world :=
  let s1 := assign_available false (assign_client None (self w)) in
  World s1
        (match _client (self w), r with
         | Some c, Ret _ => clients (transport_closed c w)
         | _, _ => clients w
         end)
        (timers w) (tasks w) (connect_calls w)
        (match _client (self w) with
         | Some _ => S (close_calls w)
         | None => close_calls w
         end)
        (written w ++ [(_state (self w), false)]).

(** Lines 29 and 41-43: the id computed in [__init__] from the address,
    which no method assigns again. *)
Definition unique_id (w : world) : string :=
  "ble_scale_" +:+ _address (self w).

(** How far a caller of [connect] is from returning. *)
Definition remaining (pc : connect_pc) : nat :=
  match pc with
  | AtLock => 3
  | AwaitConnect _ => 2
  | AwaitStartNotify _ => 1
  | Returned => 0
  end.

Definition remaining_all (s : system) : nat :=
  foldr (fun pc n => (remaining pc + n)%nat) O (callers s).

(** The world [connect] leaves when it found the lock free and the transport
    answered [rc] to [connect()] and [rn] to [start_notify]. *)
Definition after_connect (rc rn : outcome unit) (w : world) : world :=
  if holds_connection w then w
  else
    let c := length (clients w) in
    match rc, rn with
    | Raise _, _ => failed (begun w)
    | Ret _, Raise _ => failed (linked c (begun w))
    | Ret _, Ret _ => armed c (linked c (begun w))
    end.

(** The world with the held retry task cancelled, lines 158-159. *)
Definition retry_cancelled (w : world) : world :=
  match _retry_task (self w) with
  | Some h => fst (task_cancel h w)
  | None => w
  end.

(** Nothing stored, and nothing pushed but [(None, False)]. *)
Definition silent_world (w : world) : Prop :=
  _state (self w) = PyNone /\
  Forall (fun p : pyval * bool => p = (PyNone, false)) (written w).


(** Whenever the lock is held, a caller is inside the [async with] block. *)
Definition lock_owned (s : system) : Prop :=
  _connect_lock (self (sys_world s)) = true ->
  exists (i : nat) (pc : connect_pc), callers s !! i = Some pc /\ in_critical pc.

(** Every call of [connect] has returned. *)
Definition all_returned (s : system) : Prop :=
  forall (i : nat) (pc : connect_pc), callers s !! i = Some pc -> pc = Returned.
(** The world once the coroutine of task [h] has come to its end. *)
Definition finished (h : nat) (w : world) : world :=
  set_tasks (alter (fun k => Task (k_coro k) (finish_status (k_status k))) h
                   (tasks w)) w.

(** A fresh entity whose first attempt timed out: its retry is pending. *)
Definition awaiting_retry : world :=
  fst (connect (Raise TimeoutError) (Ret tt) fresh_world).

(** Rounds of retries in a row: each time the interval has gone by, the
    event loop runs the retry task the entity holds, and
    [BleakClient.connect] raises the next exception of [es]. *)
Fixpoint retry_rounds (es : list exn) (w : world) : world :=
  match es with
  | [] => w
  | e :: es' =>
      match _retry_task (self w) with
      | Some h =>
          retry_rounds es'
            (fst (_retry_connect h (_connection_retry_interval (self w))
                                 (Raise e) (Ret tt) w))
      | None => w
      end
  end.

(** * Properties *)

(** ** The decoder *)

Section Decoder.

Variable globals : gmap string pyobj.

Lemma slice_lookup {A : Type} (lo hi i : nat) (l : list A) :
  (i < hi - lo)%nat -> slice lo hi l !! i = l !! (lo + i)%nat.
Proof.
  intros Hi. unfold slice.
  rewrite lookup_take_lt by exact Hi. apply lookup_drop.
Qed.

Lemma slice_length {A : Type} (lo hi : nat) (l : list A) :
  length (slice lo hi l) = Nat.min (hi - lo) (length l - lo).
Proof. unfold slice. rewrite length_take, length_drop. reflexivity. Qed.

(** Six bytes are there to unpack exactly when the payload has 15. *)
Lemma slice_9_15 (data : list byte) :
  (15 <= length data)%nat ->
  exists b9 b10 b11 b12 b13 b14 : byte,
    slice 9 15 data = [b9; b10; b11; b12; b13; b14] /\
    data !! 9%nat = Some b9 /\ data !! 10%nat = Some b10 /\
    data !! 11%nat = Some b11 /\ data !! 12%nat = Some b12 /\
    data !! 13%nat = Some b13 /\ data !! 14%nat = Some b14.
Proof.
  intros Hlen.
  do 15 (destruct data as [| ? data]; [simpl in Hlen; lia |]).
  unfold slice. simpl. rewrite take_0. eauto 20.
Qed.

Lemma unpack_bhhb_short (buf : list byte) :
  (length buf < 6)%nat -> unpack_bhhb buf = Raise StructError.
Proof.
  intros Hlen.
  do 6 (destruct buf as [| ? buf]; [reflexivity |]).
  simpl in Hlen. lia.
Qed.

(** A payload too short for six bytes at offset 9 stops at [unpack]. *)
Lemma decode_weight_truncated (data : list byte) :
  (length data < 15)%nat -> decode_weight globals data = Raise StructError.
Proof.
  intros Hlen. unfold decode_weight.
  rewrite unpack_bhhb_short; [reflexivity |].
  rewrite slice_length. lia.
Qed.

(** What the body computes once [unpack] has succeeded. *)
Lemma decode_weight_unpacked (data : list byte) (b9 b10 b11 b12 b13 b14 : byte) :
  slice 9 15 data = [b9; b10; b11; b12; b13; b14] ->
  decode_weight globals data =
    (stable ← call_global globals "read_stable" (int8 b14);
     if stable =? 0 then Ret PyNone
     else Ret (PyInt (int16_be b10 b11 * 100))).
Proof. intros Hs. unfold decode_weight. rewrite Hs. reflexivity. Qed.

(** With the helper reachable as a global, a stable frame decodes to its
    raw weight times 100. *)
Lemma decode_weight_stable (data : list byte) (b10 b11 b14 : byte) :
  globals !! "read_stable"%string = Some (ObjIntFun read_stable) ->
  (15 <= length data)%nat ->
  data !! 10%nat = Some b10 -> data !! 11%nat = Some b11 ->
  data !! 14%nat = Some b14 ->
  Z.land (int8 b14) 0xA0 = 0xA0 ->
  decode_weight globals data = Ret (PyInt (int16_be b10 b11 * 100)).
Proof.
  intros Hg Hlen H10 H11 H14 Hst.
  destruct (slice_9_15 data Hlen)
    as (c9 & c10 & c11 & c12 & c13 & c14 & Hs & _ & E10 & E11 & _ & _ & E14).
  rewrite (decode_weight_unpacked _ _ _ _ _ _ _ Hs).
  assert (c10 = b10) by congruence. assert (c11 = b11) by congruence.
  assert (c14 = b14) by congruence. subst.
  unfold call_global. rewrite Hg. simpl.
  unfold read_stable. rewrite Hst. reflexivity.
Qed.

(** With the helper reachable as a global, an unstable frame decodes to
    [None]. *)
Lemma decode_weight_unstable (data : list byte) (b14 : byte) :
  globals !! "read_stable"%string = Some (ObjIntFun read_stable) ->
  (15 <= length data)%nat ->
  data !! 14%nat = Some b14 ->
  Z.land (int8 b14) 0xA0 <> 0xA0 ->
  decode_weight globals data = Ret PyNone.
Proof.
  intros Hg Hlen H14 Hst.
  destruct (slice_9_15 data Hlen)
    as (c9 & c10 & c11 & c12 & c13 & c14 & Hs & _ & _ & _ & _ & _ & E14).
  rewrite (decode_weight_unpacked _ _ _ _ _ _ _ Hs).
  assert (c14 = b14) by congruence. subst.
  unfold call_global. rewrite Hg. simpl.
  unfold read_stable.
  destruct (Z.eqb_spec (Z.land (int8 b14) 0xA0) 0xA0); [contradiction | reflexivity].
Qed.

(** Without a global of that name, every frame long enough to unpack ends
    in [NameError] on line 70. *)
Lemma decode_weight_unbound (data : list byte) :
  globals !! "read_stable"%string = None ->
  (15 <= length data)%nat ->
  decode_weight globals data = Raise (NameError "read_stable").
Proof.
  intros Hg Hlen.
  destruct (slice_9_15 data Hlen)
    as (c9 & c10 & c11 & c12 & c13 & c14 & Hs & _).
  rewrite (decode_weight_unpacked _ _ _ _ _ _ _ Hs).
  unfold call_global. rewrite Hg. reflexivity.
Qed.

End Decoder.

Lemma module_globals_read_stable :
  module_globals !! "read_stable"%string = None.
Proof. vm_compute. reflexivity. Qed.

Lemma helper_globals_read_stable :
  helper_globals !! "read_stable"%string = Some (ObjIntFun read_stable).
Proof. unfold helper_globals. apply lookup_insert_eq. Qed.

(** The class body does bind the name, but as an attribute of the class. *)
Lemma class_namespace_read_stable :
  class_namespace !! "read_stable"%string = Some (ObjIntFun read_stable).
Proof. vm_compute. reflexivity. Qed.

(** C1. A stable frame of 15 bytes or more should decode to [weight_raw * 100]
    grams, the scenario payload to 500.  In the module as written the name
    [read_stable] of line 70 is bound nowhere the method can see, so the
    scenario payload ends in [NameError]; it decodes to 500 as soon as the
    helper of lines 57-59 is a global. *)
Theorem decode_weight_scenario :
  decode_weight module_globals scenario_payload = Raise (NameError "read_stable") /\
  decode_weight helper_globals scenario_payload = Ret (PyInt 500).
Proof.
  split.
  - apply decode_weight_unbound; [apply module_globals_read_stable | simpl; lia].
  - rewrite (decode_weight_stable helper_globals scenario_payload x00 x05 xa0);
      [reflexivity | apply helper_globals_read_stable | simpl; lia
       | reflexivity | reflexivity | reflexivity | reflexivity].
Qed.

(** C5. A frame of 15 bytes or more whose control byte lacks one of the bits
    of [0xA0] should decode to [None].  In the module as written the scenario
    payload with control byte [00] ends in the same [NameError]; it decodes
    to [None] as soon as the helper is a global. *)
Theorem decode_weight_unstable_scenario :
  decode_weight module_globals unstable_payload = Raise (NameError "read_stable") /\
  decode_weight helper_globals unstable_payload = Ret PyNone.
Proof.
  split.
  - apply decode_weight_unbound; [apply module_globals_read_stable | simpl; lia].
  - apply (decode_weight_unstable helper_globals unstable_payload x00);
      [apply helper_globals_read_stable | simpl; lia | reflexivity | discriminate].
Qed.

(** C2, as the specification has it, fails on a payload of 14 bytes: the
    decoder does not return [None]. *)
Lemma decode_weight_short_not_none :
  (length short_payload < 15)%nat /\
  decode_weight module_globals short_payload <> Ret PyNone.
Proof. split; [simpl; lia | vm_compute; discriminate]. Qed.

(** C2, amended.  For every payload shorter than 15 bytes [decode_weight]
    returns nothing: [unpack] raises [struct.error] on the truncated slice,
    and nothing in the decoder catches it. *)
Theorem decode_weight_short (globals : gmap string pyobj) (data : list byte) :
  (length data < 15)%nat ->
  decode_weight globals data = Raise StructError.
Proof. intros Hlen. exact (decode_weight_truncated globals data Hlen). Qed.

Lemma decode_weight_short_witness :
  decode_weight module_globals short_payload = Raise StructError.
Proof. apply (decode_weight_short module_globals short_payload). simpl. lia. Defined.

(** C10. Two payloads of 15 bytes or more that agree on bytes 9 to 14 decode
    to the same result, whatever their other bytes are and whatever the
    global namespace is. *)
Theorem decode_weight_depends_on_bytes_9_to_14
    (globals : gmap string pyobj) (d1 d2 : list byte) :
  (15 <= length d1)%nat -> (15 <= length d2)%nat ->
  (forall i : nat, (9 <= i <= 14)%nat -> d1 !! i = d2 !! i) ->
  decode_weight globals d1 = decode_weight globals d2.
Proof.
  intros H1 H2 Hagree.
  assert (Hs : slice 9 15 d1 = slice 9 15 d2).
  { apply list_eq. intros i.
    destruct (decide (i < 6)%nat) as [Hi | Hi].
    - rewrite !slice_lookup by lia. apply Hagree. lia.
    - rewrite !lookup_ge_None_2; [reflexivity | |];
        rewrite slice_length; lia. }
  unfold decode_weight. rewrite Hs. reflexivity.
Qed.

Lemma decode_weight_depends_on_bytes_9_to_14_witness :
  decode_weight helper_globals scenario_payload =
  decode_weight helper_globals padded_payload.
Proof.
  apply (decode_weight_depends_on_bytes_9_to_14 helper_globals
           scenario_payload padded_payload).
  - simpl. lia.
  - simpl. lia.
  - intros i Hi.
    assert (i = 9 \/ i = 10 \/ i = 11 \/ i = 12 \/ i = 13 \/ i = 14)%nat
      as [-> | [-> | [-> | [-> | [-> | ->]]]]] by lia; reflexivity.
Defined.

(** ** The notification handler *)


(** A reading is stored, published, and the idle timer is cancelled and
    armed again for 60 seconds. *)
Lemma notification_handler_reading
    (globals : gmap string pyobj) (data : list byte) (z : Z) (w : world) :
  decode_weight globals data = Ret (PyInt z) ->
  exists w' : world,
    notification_handler globals data w = (w', Ret tt) /\
    _state (self w') = PyInt z /\
    _available (self w') = true /\
    _disconnect_timer (self w') = Some (length (timers w)) /\
    timers w' = timers_after_cancel w ++ [Timer 60 false] /\
    written w' = written w ++ [(PyInt z, true)].
Proof.
  intros Hd. unfold notification_handler, timers_after_cancel.
  unfold mbind, stmt_bind, lift. rewrite Hd. simpl.
  destruct (_disconnect_timer (self w)) as [h |]; simpl;
    eexists; (split; [reflexivity |]); simpl;
    rewrite ?length_alter; auto.
Qed.

(** Whatever else the decoder answers, the handler stops before its first
    assignment and passes the exception on. *)
Lemma notification_handler_no_reading
    (globals : gmap string pyobj) (data : list byte) (w : world) :
  (forall z : Z, decode_weight globals data <> Ret (PyInt z)) ->
  exists e : exn, notification_handler globals data w = (w, Raise e).
Proof.
  intros Hd. unfold notification_handler, mbind, stmt_bind, lift.
  destruct (decode_weight globals data) as [[| z] | e]; simpl; eauto.
  exfalso. apply (Hd z). reflexivity.
Qed.

(** The literal case: the decoder returned [None]. *)
Lemma notification_handler_none
    (globals : gmap string pyobj) (data : list byte) (w : world) :
  decode_weight globals data = Ret PyNone ->
  notification_handler globals data w = (w, Raise TypeError).
Proof.
  intros Hd. unfold notification_handler, mbind, stmt_bind, lift.
  rewrite Hd. reflexivity.
Qed.

(** C3. A notification whose payload gives no reading, because the decoder
    returned [None] (unstable) or gave up with an exception (malformed),
    leaves the entity as it was: the stored weight, the availability flag,
    the client handle and its connection, the timers and the tasks are all
    unchanged. *)
Theorem notification_handler_none_unchanged
    (globals : gmap string pyobj) (data : list byte) (w : world) :
  decode_weight globals data = Ret PyNone \/
    (exists e : exn, decode_weight globals data = Raise e) ->
  fst (notification_handler globals data w) = w.
Proof.
  intros [Hd | [e Hd]].
  - rewrite (notification_handler_none globals data w Hd). reflexivity.
  - unfold notification_handler, mbind, stmt_bind, lift.
    rewrite Hd. reflexivity.
Qed.

Lemma notification_handler_none_unchanged_witness :
  fst (notification_handler module_globals unstable_payload connected_world)
  = connected_world.
Proof.
  apply (notification_handler_none_unchanged module_globals unstable_payload
           connected_world).
  right. exists (NameError "read_stable"). vm_compute. reflexivity.
Defined.

(** In the module as written the decoder returns for no payload at all. *)
Lemma decode_weight_module_raises (data : list byte) :
  exists e : exn, decode_weight module_globals data = Raise e.
Proof.
  destruct (decide (length data < 15)%nat) as [Hlt | Hge].
  - exists StructError. exact (decode_weight_truncated module_globals data Hlt).
  - exists (NameError "read_stable").
    apply decode_weight_unbound; [exact module_globals_read_stable | lia].
Qed.

(** So the handler never gets as far as the timer. *)
Lemma notification_handler_module_raises (data : list byte) (w : world) :
  exists e : exn, notification_handler module_globals data w = (w, Raise e).
Proof.
  destruct (decode_weight_module_raises data) as [e He].
  exists e. unfold notification_handler, mbind, stmt_bind, lift.
  rewrite He. reflexivity.
Qed.

(** C4. Every notification should cancel and re-arm the idle timer.  On the
    connected entity the scenario payload stops the handler at the
    [NameError] of the decoder, and once the helper is a global the unstable
    payload stops it at [round(None, 1)]: both times the one timer armed by
    [connect] is left as it was, neither cancelled nor replaced. *)
Theorem notification_handler_timer_not_reset :
  notification_handler module_globals scenario_payload connected_world
    = (connected_world, Raise (NameError "read_stable")) /\
  notification_handler helper_globals unstable_payload connected_world
    = (connected_world, Raise TypeError) /\
  _disconnect_timer (self connected_world) = Some 0%nat /\
  timers connected_world = [Timer 60 false].
Proof. repeat split; vm_compute; reflexivity. Qed.

(** ** Disconnecting and removal *)

Lemma cancel_status_not_pending (s : task_status) : cancel_status s <> Pending.
Proof. destruct s; discriminate. Qed.

(** A cancelled task is no pending retry. *)
Lemma task_cancel_not_pending (h : nat) (w : world) :
  ~ pending_retry (fst (task_cancel h w)) h.
Proof.
  unfold pending_retry, task_cancel, modify. simpl.
  rewrite list_lookup_alter_eq.
  destruct (tasks w !! h) as [[c s] |]; simpl; intros H; [| discriminate H].
  injection H as _ Hs. exact (cancel_status_not_pending s Hs).
Qed.

(** The disconnect path in full: what it returns and what it leaves. *)
Lemma _disconnect_spec (r : outcome unit) (w : world) :
  exists w' : world,
    _disconnect r w = (w', Ret tt) /\
    _client (self w') = None /\
    _available (self w') = false /\
    _state (self w') = _state (self w) /\
    _retry_task (self w') = _retry_task (self w) /\
    _disconnect_timer (self w') = _disconnect_timer (self w) /\
    _connect_lock (self w') = _connect_lock (self w) /\
    _connection_retry_interval (self w') = _connection_retry_interval (self w) /\
    timers w' = timers w /\ tasks w' = tasks w /\
    connect_calls w' = connect_calls w /\
    close_calls w' = match _client (self w) with
                     | Some _ => S (close_calls w)
                     | None => close_calls w
                     end /\
    clients w' = match _client (self w), r with
                 | Some c, Ret _ => clients (transport_closed c w)
                 | _, _ => clients w
                 end.
Proof.
  unfold _disconnect, try_finally, try_except, client_disconnect.
  unfold mbind, stmt_bind, get, raise, modify, assign, skip, mret, stmt_ret.
  destruct (_client (self w)) as [c |], r as [[] | e]; simpl;
    eexists; (split; [reflexivity |]); simpl; repeat split; reflexivity.
Qed.

(** C9. Whatever the transport's close call answers, an error included, and
    also when no client is held, the disconnect path returns normally and
    leaves the client handle cleared and the entity unavailable. *)
Theorem disconnect_path_always_disconnected (r : outcome unit) (w : world) :
  exists w' : world,
    _disconnect r w = (w', Ret tt) /\
    _client (self w') = None /\
    _available (self w') = false.
Proof.
  destruct (_disconnect_spec r w) as (w' & H & Hc & Ha & _).
  exists w'. auto.
Qed.

(** C8, as the specification has it, fails on the connected entity: after
    removal the idle timer armed by [connect] is still pending. *)
Lemma removal_leaves_idle_timer :
  ~ all_timers_cancelled
      (fst (async_will_remove_from_hass (Ret tt) connected_world)).
Proof.
  intros H. specialize (H 0%nat (Timer 60 false) eq_refl). discriminate H.
Qed.

Lemma closed_not_connected (c : nat) (w : world) :
  connected_at c (transport_closed c w) = false.
Proof.
  unfold connected_at, transport_closed. simpl.
  rewrite list_lookup_alter_eq. destruct (clients w !! c); reflexivity.
Qed.

Lemma connected_at_clients (c : nat) (w1 w2 : world) :
  clients w1 = clients w2 -> connected_at c w1 = connected_at c w2.
Proof. unfold connected_at. intros ->. reflexivity. Qed.

(** C8, amended.  In every state, removal cancels the retry task the entity
    holds and runs the disconnect path: it returns normally, the client
    handle is cleared, the entity is unavailable, and a client that was held
    has been asked to close (and is closed when that call succeeds).  No
    timer handle is touched, so a pending idle timer stays pending; its
    callback [disconnect] then finds no client and does nothing.  A second
    removal also returns normally and makes no further close call. *)
Theorem removal_cancels_retry_and_disconnects (r r2 : outcome unit) (w : world) :
  exists w' w'' : world,
    async_will_remove_from_hass r w = (w', Ret tt) /\
    (forall h : nat, _retry_task (self w) = Some h -> ~ pending_retry w' h) /\
    timers w' = timers w /\
    _disconnect_timer (self w') = _disconnect_timer (self w) /\
    _client (self w') = None /\
    _available (self w') = false /\
    (forall c : nat, _client (self w) = Some c ->
       close_calls w' = S (close_calls w) /\
       (r = Ret tt -> connected_at c w' = false)) /\
    disconnect w' = (w', Ret tt) /\
    async_will_remove_from_hass r2 w' = (w'', Ret tt) /\
    close_calls w'' = close_calls w' /\
    _client (self w'') = None /\
    _available (self w'') = false.
Proof.
  assert (Hgen : forall (r : outcome unit) (w : world),
     async_will_remove_from_hass r w =
     _disconnect r (match _retry_task (self w) with
                    | Some h => fst (task_cancel h w)
                    | None => w
                    end)).
  { intros r0 w0. unfold async_will_remove_from_hass.
    unfold mbind, stmt_bind, get. simpl.
    destruct (_retry_task (self w0)); reflexivity. }
  set (w1 := match _retry_task (self w) with
             | Some h => fst (task_cancel h w)
             | None => w
             end).
  assert (Hself : self w1 = self w)
    by (subst w1; destruct (_retry_task (self w)); reflexivity).
  assert (Htim : timers w1 = timers w)
    by (subst w1; destruct (_retry_task (self w)); reflexivity).
  assert (Hcl : clients w1 = clients w)
    by (subst w1; destruct (_retry_task (self w)); reflexivity).
  assert (Hcc : close_calls w1 = close_calls w)
    by (subst w1; destruct (_retry_task (self w)); reflexivity).
  destruct (_disconnect_spec r w1)
    as (w' & Hd & Hc & Ha & _ & Hrt & Hdt & _ & _ & Ht & Hk & _ & Hclose & Hcls).
  set (w2 := match _retry_task (self w') with
             | Some h => fst (task_cancel h w')
             | None => w'
             end).
  assert (Hself2 : self w2 = self w')
    by (subst w2; destruct (_retry_task (self w')); reflexivity).
  assert (Hcc2 : close_calls w2 = close_calls w')
    by (subst w2; destruct (_retry_task (self w')); reflexivity).
  destruct (_disconnect_spec r2 w2)
    as (w'' & Hd2 & Hc2 & Ha2 & _ & _ & _ & _ & _ & _ & _ & _ & Hclose2 & _).
  exists w', w''.
  split; [rewrite Hgen; exact Hd |].
  split.
  { intros h Hh. unfold pending_retry. rewrite Hk. subst w1. rewrite Hh.
    apply task_cancel_not_pending. }
  split; [congruence |].
  split; [congruence |].
  split; [exact Hc |].
  split; [exact Ha |].
  split.
  { intros c Hcur. rewrite Hself, Hcur in Hclose, Hcls. split; [congruence |].
    intros ->.
    rewrite (connected_at_clients c w' (transport_closed c w1) Hcls).
    apply closed_not_connected. }
  split.
  { unfold disconnect, mbind, stmt_bind, client_connected, holds_connection.
    rewrite Hc. reflexivity. }
  split; [rewrite Hgen; exact Hd2 |].
  split; [| auto].
  rewrite Hself2, Hc in Hclose2. congruence.
Qed.

(** ** Connecting and retrying *)

Lemma connect_except_eq (e : exn) :
  connect_except e = (assign (assign_available false);; _schedule_retry).
Proof. destruct e; reflexivity. Qed.


Lemma tasks_after_cancel_length (w : world) :
  length (tasks_after_cancel w) = length (tasks w).
Proof.
  unfold tasks_after_cancel.
  destruct (_retry_task (self w)); [apply length_alter | reflexivity].
Qed.

(** Where the retry is tracked, cancelling the held task leaves no pending
    retry at all. *)
Lemma tasks_after_cancel_none_pending (w : world) (h : nat) :
  retry_tracked w ->
  tasks_after_cancel w !! h <> Some (Task RetryConnect Pending).
Proof.
  intros Htr Hp. unfold tasks_after_cancel in Hp.
  destruct (_retry_task (self w)) as [k |] eqn:Hk.
  - destruct (decide (k = h)) as [-> | Hne].
    + rewrite list_lookup_alter_eq in Hp.
      destruct (tasks w !! h) as [[c s] |]; simpl in Hp; [| discriminate Hp].
      injection Hp as _ Hs. exact (cancel_status_not_pending s Hs).
    + rewrite list_lookup_alter_ne in Hp by exact Hne.
      specialize (Htr h Hp). congruence.
  - specialize (Htr h Hp). congruence.
Qed.

(** After [_schedule_retry] exactly one retry is pending: the new task. *)
Lemma one_pending_after_schedule (w w' : world) :
  retry_tracked w ->
  tasks w' = tasks_after_cancel w ++ [Task RetryConnect Pending] ->
  forall h : nat, pending_retry w' h <-> h = length (tasks w).
Proof.
  intros Htr Ht h. unfold pending_retry. rewrite Ht. split.
  - intros Hp.
    destruct (decide (h < length (tasks_after_cancel w))%nat) as [Hlt | Hge].
    + rewrite lookup_app_l in Hp by exact Hlt.
      exfalso. exact (tasks_after_cancel_none_pending w h Htr Hp).
    + apply lookup_lt_Some in Hp. rewrite length_app in Hp. simpl in Hp.
      rewrite tasks_after_cancel_length in *. lia.
  - intros ->. rewrite <- (tasks_after_cancel_length w).
    apply list_lookup_middle. reflexivity.
Qed.




Lemma _schedule_retry_eq (w : world) : _schedule_retry w = (scheduled w, Ret tt).
Proof.
  unfold _schedule_retry, scheduled, tasks_after_cancel.
  unfold mbind, stmt_bind, get. simpl.
  destruct (_retry_task (self w)); simpl; rewrite ?length_alter; reflexivity.
Qed.

Lemma connect_except_release (e : exn) (w : world) :
  (connect_except e;; release_lock;; mret Returned) w = (failed w, Ret Returned).
Proof.
  rewrite connect_except_eq. unfold failed.
  unfold mbind, stmt_bind, assign at 1. simpl.
  rewrite _schedule_retry_eq. reflexivity.
Qed.

Lemma connect_begin_free (w : world) :
  _connect_lock (self w) = false ->
  holds_connection w = false ->
  connect_begin w = (begun w, Ret (AwaitConnect (length (clients w)))).
Proof.
  intros Hlock Hconn. unfold connect_begin.
  unfold mbind, stmt_bind, get, client_connected. rewrite Hlock. simpl.
  change (holds_connection (set_self (assign_connect_lock true (self w)) w))
    with (holds_connection w).
  rewrite Hconn. reflexivity.
Qed.

Lemma connect_begin_locked (w : world) :
  _connect_lock (self w) = true ->
  connect_begin w = (w, Ret AtLock).
Proof.
  intros Hlock. unfold connect_begin, mbind, stmt_bind, get.
  rewrite Hlock. reflexivity.
Qed.

Lemma set_self_same (w : world) : set_self (self w) w = w.
Proof. destruct w. reflexivity. Qed.

Lemma assign_connect_lock_same (s : sensor) :
  assign_connect_lock (_connect_lock s) s = s.
Proof. destruct s. reflexivity. Qed.

(** Already connected: in and out of the lock, nothing else. *)
Lemma connect_begin_connected (w : world) :
  _connect_lock (self w) = false ->
  holds_connection w = true ->
  connect_begin w = (w, Ret Returned).
Proof.
  intros Hlock Hconn. unfold connect_begin.
  unfold mbind, stmt_bind, get, client_connected. rewrite Hlock. simpl.
  change (holds_connection (set_self (assign_connect_lock true (self w)) w))
    with (holds_connection w).
  rewrite Hconn. unfold release_lock, assign, mret, stmt_ret. simpl.
  f_equal. destruct w as [[] ? ? ? ? ? ?]. simpl in *. subst. reflexivity.
Qed.

Lemma connect_resume_connect_raise (c : nat) (e : exn) (w : world) :
  connect_resume_connect c (Raise e) w = (failed w, Ret Returned).
Proof. apply connect_except_release. Qed.

Lemma connect_resume_notify_raise (c : nat) (e : exn) (w : world) :
  connect_resume_notify c (Raise e) w = (failed w, Ret Returned).
Proof. apply connect_except_release. Qed.


Lemma connect_resume_connect_ok (c c' : nat) (w : world) :
  _client (self w) = Some c' ->
  connect_resume_connect c (Ret tt) w = (linked c w, Ret (AwaitStartNotify c')).
Proof.
  intros Hc. unfold connect_resume_connect, linked.
  unfold mbind, stmt_bind, modify, assign, get. simpl. rewrite Hc. reflexivity.
Qed.

(** A failed attempt, step by step: what [connect] returns and leaves. *)
Lemma connect_failure_world (rc rn : outcome unit) (w : world) :
  _connect_lock (self w) = false ->
  holds_connection w = false ->
  connect_fails rc rn ->
  exists w' : world,
    connect rc rn w = (w', Ret Returned) /\
    _available (self w') = false /\
    _connect_lock (self w') = false /\
    _retry_task (self w') = Some (length (tasks w)) /\
    tasks w' = tasks_after_cancel w ++ [Task RetryConnect Pending] /\
    _connection_retry_interval (self w') = _connection_retry_interval (self w) /\
    _state (self w') = _state (self w) /\
    _disconnect_timer (self w') = _disconnect_timer (self w) /\
    timers w' = timers w /\
    connect_calls w' = S (connect_calls w).
Proof.
  intros Hlock Hconn Hfail.
  unfold connect. unfold mbind at 1, stmt_bind at 1.
  rewrite (connect_begin_free w Hlock Hconn).
  destruct Hfail as [[e ->] | [-> [e ->]]].
  - unfold mbind, stmt_bind. rewrite connect_resume_connect_raise.
    eexists. split; [reflexivity |]. repeat split; reflexivity.
  - unfold mbind, stmt_bind.
    rewrite (connect_resume_connect_ok _ (length (clients w))) by reflexivity.
    rewrite connect_resume_notify_raise.
    eexists. split; [reflexivity |]. repeat split; reflexivity.
Qed.

(** Once the interval has gone by, the retry runs [async_update]. *)
Lemma _retry_connect_due (h : nat) (elapsed : Z) (rc rn : outcome unit) (w : world) :
  pending_retry w h ->
  _connection_retry_interval (self w) <= elapsed ->
  _retry_connect h elapsed rc rn w =
    try_finally (_ ← async_update rc rn; skip) (task_finished h) w.
Proof.
  intros Hp Hd. unfold _retry_connect. rewrite Hp.
  destruct (Z.ltb_spec elapsed (_connection_retry_interval (self w))); [lia |].
  reflexivity.
Qed.


Lemma connect_resume_notify_ok (c : nat) (w : world) :
  connect_resume_notify c (Ret tt) w = (armed c w, Ret Returned).
Proof. reflexivity. Qed.

Lemma outcome_unit_cases (r : outcome unit) :
  r = Ret tt \/ exists e : exn, r = Raise e.
Proof. destruct r as [[] | e]; eauto. Qed.

(** An attempt on which the transport answers well. *)
Lemma connect_success_world (w : world) :
  _connect_lock (self w) = false ->
  holds_connection w = false ->
  connect (Ret tt) (Ret tt) w =
    (armed (length (clients w)) (linked (length (clients w)) (begun w)),
     Ret Returned).
Proof.
  intros Hlock Hconn. unfold connect. unfold mbind at 1, stmt_bind at 1.
  rewrite (connect_begin_free w Hlock Hconn).
  unfold mbind, stmt_bind.
  rewrite (connect_resume_connect_ok _ (length (clients w))) by reflexivity.
  rewrite connect_resume_notify_ok. reflexivity.
Qed.

Lemma connect_connected (rc rn : outcome unit) (w : world) :
  _connect_lock (self w) = false ->
  holds_connection w = true ->
  connect rc rn w = (w, Ret Returned).
Proof.
  intros Hlock Hconn. unfold connect, mbind, stmt_bind.
  rewrite (connect_begin_connected w Hlock Hconn). reflexivity.
Qed.

(** After a successful attempt the entity holds a connected client. *)
Lemma connect_success_holds (w : world) :
  holds_connection
    (armed (length (clients w)) (linked (length (clients w)) (begun w))) = true.
Proof.
  unfold holds_connection, connected_at. simpl.
  rewrite list_lookup_alter_eq, list_lookup_alter_eq.
  rewrite list_lookup_middle by reflexivity. reflexivity.
Qed.

(** [retry_tracked] reads the tasks and [_retry_task] only. *)
Lemma retry_tracked_ext (w w' : world) :
  tasks w' = tasks w ->
  _retry_task (self w') = _retry_task (self w) ->
  retry_tracked w -> retry_tracked w'.
Proof.
  intros Ht Hr Htr h Hp. unfold pending_retry in Hp.
  rewrite Ht in Hp. rewrite Hr. exact (Htr h Hp).
Qed.

Lemma retry_tracked_scheduled (w w' : world) :
  tasks w' = tasks_after_cancel w ++ [Task RetryConnect Pending] ->
  _retry_task (self w') = Some (length (tasks w)) ->
  retry_tracked w -> retry_tracked w'.
Proof.
  intros Ht Hr Htr h Hp. rewrite Hr. f_equal. symmetry.
  exact (proj1 (one_pending_after_schedule w w' Htr Ht h) Hp).
Qed.

(** Every method keeps the retry tracked, and [__init__] establishes it. *)
Lemma retry_tracked_init (address : string) : retry_tracked (__init__ address).
Proof. intros h Hp. discriminate Hp. Qed.

Lemma retry_tracked_connect (rc rn : outcome unit) (w : world) :
  _connect_lock (self w) = false ->
  retry_tracked w -> retry_tracked (fst (connect rc rn w)).
Proof.
  intros Hlock Htr.
  destruct (holds_connection w) eqn:Hconn.
  - rewrite (connect_connected rc rn w Hlock Hconn). exact Htr.
  - destruct (outcome_unit_cases rc) as [-> | Hrc];
      [destruct (outcome_unit_cases rn) as [-> | Hrn] |].
    + rewrite (connect_success_world w Hlock Hconn).
      apply (retry_tracked_ext w); [reflexivity | reflexivity | exact Htr].
    + destruct (connect_failure_world (Ret tt) rn w Hlock Hconn)
        as (w' & Hrun & _ & _ & Hrt & Ht & _); [right; auto |].
      rewrite Hrun. exact (retry_tracked_scheduled w w' Ht Hrt Htr).
    + destruct (connect_failure_world rc rn w Hlock Hconn)
        as (w' & Hrun & _ & _ & Hrt & Ht & _); [left; auto |].
      rewrite Hrun. exact (retry_tracked_scheduled w w' Ht Hrt Htr).
Qed.

Lemma retry_tracked_notification (globals : gmap string pyobj)
    (data : list byte) (w : world) :
  retry_tracked w -> retry_tracked (fst (notification_handler globals data w)).
Proof.
  intros Htr.
  destruct (decode_weight globals data) as [[| z] | e] eqn:Hd.
  - rewrite (notification_handler_none globals data w Hd). exact Htr.
  - unfold notification_handler, mbind, stmt_bind, lift. rewrite Hd. simpl.
    destruct (_disconnect_timer (self w)); simpl;
      (apply (retry_tracked_ext w); [reflexivity | reflexivity | exact Htr]).
  - unfold notification_handler, mbind, stmt_bind, lift. rewrite Hd. exact Htr.
Qed.

Lemma retry_tracked_disconnect_path (r : outcome unit) (w : world) :
  retry_tracked w -> retry_tracked (fst (_disconnect r w)).
Proof.
  intros Htr.
  destruct (_disconnect_spec r w)
    as (w' & Hd & _ & _ & _ & Hrt & _ & _ & _ & _ & Hk & _).
  rewrite Hd. exact (retry_tracked_ext w w' Hk Hrt Htr).
Qed.

Lemma retry_tracked_removal (r : outcome unit) (w : world) :
  retry_tracked w -> retry_tracked (fst (async_will_remove_from_hass r w)).
Proof.
  intros Htr.
  assert (Hc : retry_tracked (match _retry_task (self w) with
                              | Some h => fst (task_cancel h w)
                              | None => w
                              end)).
  { destruct (_retry_task (self w)) as [k |] eqn:Hk; [| exact Htr].
    intros h Hp. simpl. rewrite Hk. f_equal.
    destruct (decide (k = h)) as [-> | Hne]; [reflexivity |].
    unfold pending_retry in Hp. simpl in Hp.
    rewrite list_lookup_alter_ne in Hp by exact Hne.
    specialize (Htr h Hp). congruence. }
  unfold async_will_remove_from_hass, mbind, stmt_bind, get. simpl.
  destruct (_retry_task (self w)); simpl;
    apply retry_tracked_disconnect_path; exact Hc.
Qed.

Lemma retry_tracked_idle_timer (w : world) :
  retry_tracked w -> retry_tracked (fst (disconnect w)).
Proof.
  intros Htr. unfold disconnect, mbind, stmt_bind, client_connected.
  destruct (holds_connection w); simpl; [| exact Htr].
  intros h Hp. unfold pending_retry in Hp. simpl in Hp.
  apply lookup_snoc_Some in Hp as [[_ Hp] | [_ Hp]]; [| discriminate Hp].
  exact (Htr h Hp).
Qed.

(** ** Several callers: mutual exclusion and the single connection *)

Lemma connected_at_begun (c : nat) (w : world) :
  connected_at c (begun w) = true -> connected_at c w = true.
Proof.
  unfold connected_at, begun. simpl. intros H.
  destruct (decide (c < length (clients w))%nat) as [Hlt | Hge].
  - rewrite lookup_app_l in H by exact Hlt. exact H.
  - rewrite lookup_app_r in H by lia.
    destruct (c - length (clients w))%nat as [| n]; simpl in H.
    + discriminate H.
    + destruct n; discriminate H.
Qed.

Lemma connected_at_linked (c c' : nat) (w : world) :
  connected_at c' (linked c w) = true -> c' = c \/ connected_at c' w = true.
Proof.
  unfold connected_at, linked, transport_connected. simpl. intros H.
  destruct (decide (c = c')) as [-> | Hne]; [left; reflexivity | right].
  rewrite list_lookup_alter_ne in H by exact Hne. exact H.
Qed.

Lemma connected_at_armed (c c' : nat) (w : world) :
  connected_at c' (armed c w) = connected_at c' w.
Proof.
  unfold connected_at, armed, transport_notifying. simpl.
  destruct (decide (c = c')) as [-> | Hne].
  - rewrite list_lookup_alter_eq. destruct (clients w !! c'); reflexivity.
  - rewrite list_lookup_alter_ne by exact Hne. reflexivity.
Qed.

Lemma connected_at_closed (c c' : nat) (w : world) :
  connected_at c' (transport_closed c w) = true -> connected_at c' w = true.
Proof.
  unfold connected_at, transport_closed. simpl. intros H.
  destruct (decide (c = c')) as [-> | Hne].
  - rewrite list_lookup_alter_eq in H.
    destruct (clients w !! c'); simpl in H; discriminate H.
  - rewrite list_lookup_alter_ne in H by exact Hne. exact H.
Qed.

(** Replacing the one caller that may be inside the lock. *)
Lemma exclusive_update (s : system) (i : nat) (w' : world) (pc' : connect_pc) :
  (forall (j : nat) (pc : connect_pc),
      callers s !! j = Some pc -> in_critical pc -> j = i) ->
  only_current_connected w' ->
  (in_critical pc' -> _connect_lock (self w') = true) ->
  (forall c : nat, pc' = AwaitConnect c -> _client (self w') = Some c) ->
  exclusive (System w' (<[i := pc']> (callers s))).
Proof.
  intros Honly Hcur Hlock Hclient.
  assert (Haux : forall (j : nat) (pc : connect_pc),
             <[i := pc']> (callers s) !! j = Some pc -> in_critical pc ->
             j = i /\ pc = pc').
  { intros j pc Hj Hcrit.
    apply list_lookup_insert_Some in Hj as [(-> & <- & _) | (Hne & Hj)].
    - split; reflexivity.
    - exfalso. apply Hne. symmetry. exact (Honly j pc Hj Hcrit). }
  unfold exclusive. simpl. repeat split.
  - exact Hcur.
  - intros j pc Hj Hcrit. destruct (Haux j pc Hj Hcrit) as [_ ->].
    exact (Hlock Hcrit).
  - intros j c Hj. destruct (Haux j _ Hj I) as [_ Heq].
    apply Hclient. symmetry. exact Heq.
  - intros j k pj pk Hj Hk Hcj Hck.
    destruct (Haux j pj Hj Hcj) as [-> _].
    destruct (Haux k pk Hk Hck) as [-> _]. reflexivity.
  - intros Hfree j pc Hj Hcrit. destruct (Haux j pc Hj Hcrit) as [_ ->].
    rewrite (Hlock Hcrit) in Hfree. discriminate Hfree.
Qed.

Lemma initial_exclusive (s : system) : initial s -> exclusive s.
Proof.
  intros (Hlock & Hall & Hcur). unfold exclusive.
  assert (Hnone : forall (i : nat) (pc : connect_pc),
             callers s !! i = Some pc -> ~ in_critical pc).
  { intros i pc Hi Hcrit. rewrite (Hall i pc Hi) in Hcrit. exact Hcrit. }
  repeat split.
  - exact Hcur.
  - intros i pc Hi Hcrit. destruct (Hnone i pc Hi Hcrit).
  - intros i c Hi. destruct (Hnone i _ Hi I).
  - intros i j pi pj Hi _ Hcrit _. destruct (Hnone i pi Hi Hcrit).
  - intros _. exact Hnone.
Qed.

(** One step of any caller, of the transport or of the link keeps it. *)
Lemma exclusive_step (s s' : system) : exclusive s -> step s s' -> exclusive s'.
Proof.
  intros Hex Hstep.
  destruct Hex as (Hcur & Hlockd & Hclient & Huniq & Hfree).
  destruct Hstep as [s i w' pc' Hi Hrun | s i c r w' pc' Hi Hrun
                    | s i c r w' pc' Hi Hrun | s c].
  - (* a caller reaches [async with] *)
    destruct (_connect_lock (self (sys_world s))) eqn:Hl.
    + rewrite (connect_begin_locked _ Hl) in Hrun.
      injection Hrun as <- <-.
      rewrite (list_insert_id _ _ _ Hi).
      destruct s. unfold exclusive. simpl in *.
      repeat split; auto; congruence.
    + assert (Honly : forall (j : nat) (pc : connect_pc),
                 callers s !! j = Some pc -> in_critical pc -> j = i).
      { intros j pc Hj Hcrit. destruct (Hfree eq_refl j pc Hj Hcrit). }
      destruct (holds_connection (sys_world s)) eqn:Hconn.
      * rewrite (connect_begin_connected _ Hl Hconn) in Hrun.
        injection Hrun as <- <-.
        apply exclusive_update; [exact Honly | exact Hcur | intros [] | discriminate].
      * rewrite (connect_begin_free _ Hl Hconn) in Hrun.
        injection Hrun as <- <-.
        apply exclusive_update; [exact Honly | | reflexivity | ].
        -- intros c Hc. apply connected_at_begun in Hc.
           pose proof (Hcur c Hc) as Hcl.
           unfold holds_connection in Hconn. rewrite Hcl, Hc in Hconn.
           discriminate Hconn.
        -- intros c [= <-]. reflexivity.
  - (* the transport answers [connect()] *)
    assert (Honly : forall (j : nat) (pc : connect_pc),
               callers s !! j = Some pc -> in_critical pc -> j = i).
    { intros j pc Hj Hcrit. exact (Huniq j i pc _ Hj Hi Hcrit I). }
    pose proof (Hclient i c Hi) as Hcl.
    pose proof (Hlockd i _ Hi I) as Hl.
    destruct r as [[] | e].
    + rewrite (connect_resume_connect_ok c c _ Hcl) in Hrun.
      injection Hrun as <- <-.
      apply exclusive_update; [exact Honly | | intros _; exact Hl | discriminate].
      intros c' Hc'. apply connected_at_linked in Hc' as [-> | Hc'].
      * exact Hcl.
      * exact (Hcur c' Hc').
    + rewrite connect_resume_connect_raise in Hrun.
      injection Hrun as <- <-.
      apply exclusive_update; [exact Honly | | intros [] | discriminate].
      intros c' Hc'. exact (Hcur c' Hc').
  - (* the transport answers [start_notify] *)
    assert (Honly : forall (j : nat) (pc : connect_pc),
               callers s !! j = Some pc -> in_critical pc -> j = i).
    { intros j pc Hj Hcrit. exact (Huniq j i pc _ Hj Hi Hcrit I). }
    destruct r as [[] | e].
    + rewrite connect_resume_notify_ok in Hrun.
      injection Hrun as <- <-.
      apply exclusive_update; [exact Honly | | intros [] | discriminate].
      intros c' Hc'. rewrite connected_at_armed in Hc'. exact (Hcur c' Hc').
    + rewrite connect_resume_notify_raise in Hrun.
      injection Hrun as <- <-.
      apply exclusive_update; [exact Honly | | intros [] | discriminate].
      intros c' Hc'. exact (Hcur c' Hc').
  - (* the link of a client drops *)
    unfold exclusive. simpl. repeat split; auto.
    intros c' Hc'. apply connected_at_closed in Hc'. exact (Hcur c' Hc').
Qed.

Lemma exclusive_reachable (s0 s : system) :
  initial s0 -> rtc step s0 s -> exclusive s.
Proof.
  intros Hinit Hsteps. apply initial_exclusive in Hinit.
  induction Hsteps as [| s1 s2 s3 Hstep _ IH]; [exact Hinit |].
  apply IH. exact (exclusive_step s1 s2 Hinit Hstep).
Qed.

(** What is reached from an initial system has at most one connection open
    and at most one caller inside the lock. *)
Lemma reachable_single_connection (s0 s : system) :
  initial s0 -> rtc step s0 s ->
  at_most_one_connection (sys_world s) /\
  (forall (i j : nat) (pi pj : connect_pc),
      callers s !! i = Some pi -> callers s !! j = Some pj ->
      in_critical pi -> in_critical pj -> i = j).
Proof.
  intros Hinit Hsteps.
  destruct (exclusive_reachable s0 s Hinit Hsteps) as (Hcur & _ & _ & Huniq & _).
  split; [| exact Huniq].
  intros c1 c2 H1 H2.
  pose proof (Hcur c1 H1) as E1. pose proof (Hcur c2 H2) as E2. congruence.
Qed.

(** C6. [connect] is idempotent and exclusive.  Called with the lock free on
    an entity that holds a connected client, it returns at once and leaves
    everything as it was, so neither one call nor two in succession reach
    [BleakClient.connect] or create a client.  And however the event loop
    interleaves any number of callers, transport answers and link losses,
    starting with the lock free, at most one client is connected at any time
    and at most one caller is inside the [async with] block. *)
Theorem connect_idempotent_and_exclusive
    (w : world) (rc1 rn1 rc2 rn2 : outcome unit) (s0 s : system) :
  (_connect_lock (self w) = false -> holds_connection w = true ->
     connect rc1 rn1 w = (w, Ret Returned) /\
     (connect rc1 rn1;; connect rc2 rn2) w = (w, Ret Returned) /\
     connect_calls (fst ((connect rc1 rn1;; connect rc2 rn2) w)) = connect_calls w) /\
  (initial s0 -> rtc step s0 s ->
     at_most_one_connection (sys_world s) /\
     (forall (i j : nat) (pi pj : connect_pc),
         callers s !! i = Some pi -> callers s !! j = Some pj ->
         in_critical pi -> in_critical pj -> i = j)).
Proof.
  split.
  - intros Hlock Hconn.
    assert (H1 : connect rc1 rn1 w = (w, Ret Returned))
      by exact (connect_connected rc1 rn1 w Hlock Hconn).
    assert (H2 : (connect rc1 rn1;; connect rc2 rn2) w = (w, Ret Returned)).
    { unfold mbind, stmt_bind. rewrite H1.
      exact (connect_connected rc2 rn2 w Hlock Hconn). }
    split; [exact H1 |]. split; [exact H2 |]. rewrite H2. reflexivity.
  - exact (reachable_single_connection s0 s).
Qed.


Lemma two_callers_initial : initial two_callers_start.
Proof.
  split; [reflexivity |]. split.
  - intros [| [| i]] pc H; simpl in H; rewrite ?lookup_nil in H; congruence.
  - intros c H. destruct c; discriminate H.
Defined.

Lemma two_callers_run : rtc step two_callers_start two_callers_linked.
Proof.
  apply (rtc_l step _
           (System (begun fresh_world) [AwaitConnect 0; AtLock])).
  { exact (step_begin two_callers_start 0 (begun fresh_world)
             (AwaitConnect 0) eq_refl eq_refl). }
  apply (rtc_l step _
           (System (begun fresh_world) [AwaitConnect 0; AtLock])).
  { exact (step_begin (System (begun fresh_world) [AwaitConnect 0; AtLock]) 1
             (begun fresh_world) AtLock eq_refl eq_refl). }
  apply (rtc_l step _ two_callers_linked).
  { exact (step_connect (System (begun fresh_world) [AwaitConnect 0; AtLock]) 0 0
             (Ret tt) (linked 0 (begun fresh_world)) (AwaitStartNotify 0)
             eq_refl eq_refl). }
  apply rtc_refl.
Defined.

Lemma connect_idempotent_and_exclusive_witness :
  (connect (Ret tt) (Ret tt) connected_world = (connected_world, Ret Returned) /\
   (connect (Ret tt) (Ret tt);; connect (Raise BleakError) (Ret tt)) connected_world
     = (connected_world, Ret Returned) /\
   connect_calls (fst ((connect (Ret tt) (Ret tt);;
                        connect (Raise BleakError) (Ret tt)) connected_world))
     = connect_calls connected_world) /\
  (at_most_one_connection (sys_world two_callers_linked) /\
   (forall (i j : nat) (pi pj : connect_pc),
       callers two_callers_linked !! i = Some pi ->
       callers two_callers_linked !! j = Some pj ->
       in_critical pi -> in_critical pj -> i = j)).
Proof.
  destruct (connect_idempotent_and_exclusive connected_world
              (Ret tt) (Ret tt) (Raise BleakError) (Ret tt)
              two_callers_start two_callers_linked) as [Hidem Hexcl].
  split.
  - apply Hidem; reflexivity.
  - apply Hexcl; [exact two_callers_initial | exact two_callers_run].
Defined.

(** The retry stays tracked through [async_update] and the retry task. *)
Lemma retry_tracked_async_update (rc rn : outcome unit) (w : world) :
  _connect_lock (self w) = false ->
  retry_tracked w -> retry_tracked (fst (async_update rc rn w)).
Proof.
  intros Hlock Htr. unfold async_update, mbind, stmt_bind, client_connected.
  destruct (holds_connection w); simpl; [exact Htr |].
  exact (retry_tracked_connect rc rn w Hlock Htr).
Qed.

(** ** The retry task *)

Lemma connect_world (rc rn : outcome unit) (w : world) :
  _connect_lock (self w) = false ->
  connect rc rn w = (after_connect rc rn w, Ret Returned).
Proof.
  intros Hlock. unfold after_connect.
  destruct (holds_connection w) eqn:Hconn.
  - exact (connect_connected rc rn w Hlock Hconn).
  - unfold connect. unfold mbind at 1, stmt_bind at 1.
    rewrite (connect_begin_free w Hlock Hconn).
    destruct rc as [[] | e].
    + unfold mbind, stmt_bind.
      rewrite (connect_resume_connect_ok _ (length (clients w))) by reflexivity.
      destruct rn as [[] | e'].
      * rewrite connect_resume_notify_ok. reflexivity.
      * rewrite connect_resume_notify_raise. reflexivity.
    + unfold mbind, stmt_bind. rewrite connect_resume_connect_raise.
      reflexivity.
Qed.

Lemma async_update_world (rc rn : outcome unit) (w : world) :
  _connect_lock (self w) = false ->
  async_update rc rn w = (after_connect rc rn w, Ret Returned).
Proof.
  intros Hlock. unfold async_update, mbind, stmt_bind, client_connected.
  destruct (holds_connection w) eqn:Hconn; simpl.
  - unfold after_connect. rewrite Hconn. reflexivity.
  - exact (connect_world rc rn w Hlock).
Qed.

(** Once the interval has gone by, the retry runs [async_update], and the
    task has finished whatever that call did. *)
Lemma _retry_connect_world
    (h : nat) (elapsed : Z) (rc rn : outcome unit) (w : world) :
  _connect_lock (self w) = false ->
  pending_retry w h ->
  _connection_retry_interval (self w) <= elapsed ->
  _retry_connect h elapsed rc rn w = (finished h (after_connect rc rn w), Ret tt).
Proof.
  intros Hlock Hp Hd. rewrite (_retry_connect_due h elapsed rc rn w Hp Hd).
  unfold try_finally, mbind, stmt_bind.
  rewrite (async_update_world rc rn w Hlock). reflexivity.
Qed.

Lemma _retry_connect_cases
    (h : nat) (elapsed : Z) (rc rn : outcome unit) (w : world) :
  _connect_lock (self w) = false ->
  _retry_connect h elapsed rc rn w = (w, Ret tt) \/
  _retry_connect h elapsed rc rn w = (finished h (after_connect rc rn w), Ret tt).
Proof.
  intros Hlock.
  destruct (tasks w !! h) as [[[] []] |] eqn:Hh;
    try (left; unfold _retry_connect; rewrite Hh; reflexivity).
  destruct (Z.ltb_spec elapsed (_connection_retry_interval (self w))) as [Hlt | Hge].
  - left. unfold _retry_connect. rewrite Hh.
    destruct (Z.ltb_spec elapsed (_connection_retry_interval (self w)));
      [reflexivity | lia].
  - right. exact (_retry_connect_world h elapsed rc rn w Hlock Hh Hge).
Qed.

Lemma pending_retry_finished (h h' : nat) (w : world) :
  pending_retry (finished h w) h' <-> pending_retry w h' /\ h' <> h.
Proof.
  unfold pending_retry, finished. simpl.
  destruct (decide (h = h')) as [-> | Hne].
  - rewrite list_lookup_alter_eq. split.
    + intros Hp. destruct (tasks w !! h') as [[c []] |]; discriminate Hp.
    + intros [_ Hn]. destruct (Hn eq_refl).
  - rewrite list_lookup_alter_ne by exact Hne. split.
    + intros Hp. split; [exact Hp | congruence].
    + intros [Hp _]. exact Hp.
Qed.

Lemma retry_tracked_finished (h : nat) (w : world) :
  retry_tracked w -> retry_tracked (finished h w).
Proof.
  intros Htr h' Hp. apply pending_retry_finished in Hp as [Hp _].
  exact (Htr h' Hp).
Qed.

Lemma alter_lookup_insert {A : Type} (f : A -> A) (l : list A) (i : nat) (x : A) :
  l !! i = Some x -> alter f i l = <[i := f x]> l.
Proof.
  revert i. induction l as [| a l IH]; intros i Hi; [discriminate Hi |].
  destruct i as [| i]; simpl in *.
  - injection Hi as ->. reflexivity.
  - f_equal. exact (IH i Hi).
Qed.

Lemma retry_tracked_retry_connect (h : nat) (elapsed : Z)
    (rc rn : outcome unit) (w : world) :
  _connect_lock (self w) = false ->
  retry_tracked w -> retry_tracked (fst (_retry_connect h elapsed rc rn w)).
Proof.
  intros Hlock Htr.
  destruct (tasks w !! h) as [[[] []] |] eqn:Hh;
    try (unfold _retry_connect; rewrite Hh; exact Htr).
  destruct (Z.ltb_spec elapsed (_connection_retry_interval (self w))) as [Hlt | Hge].
  - unfold _retry_connect. rewrite Hh.
    destruct (Z.ltb_spec elapsed (_connection_retry_interval (self w)));
      [exact Htr | lia].
  - rewrite (_retry_connect_world h elapsed rc rn w Hlock Hh Hge). simpl.
    apply retry_tracked_finished.
    pose proof (retry_tracked_async_update rc rn w Hlock Htr) as H.
    rewrite (async_update_world rc rn w Hlock) in H. exact H.
Qed.





(** * Further properties of the code *)

(** ** The stability test and the unpacked fields *)

Lemma testbit_160 (n : Z) :
  0 <= n -> Z.testbit 160 n = true -> n = 5 \/ n = 7.
Proof.
  intros Hn Hb.
  destruct (Z_lt_le_dec n 8) as [Hlt | Hge].
  - assert (n = 0 \/ n = 1 \/ n = 2 \/ n = 3 \/ n = 4 \/ n = 5 \/ n = 6 \/ n = 7)
      as [-> | [-> | [-> | [-> | [-> | [-> | [-> | ->]]]]]]] by lia;
      try discriminate Hb; auto.
  - rewrite Z.bits_above_log2 in Hb; [discriminate Hb | lia |].
    change (Z.log2 160) with 7. lia.
Qed.

Lemma land_160 (c : Z) :
  Z.land c 160 = 160 <-> Z.testbit c 7 = true /\ Z.testbit c 5 = true.
Proof.
  split.
  - intros H. split.
    + apply (f_equal (fun x => Z.testbit x 7)) in H.
      rewrite Z.land_spec in H. change (Z.testbit 160 7) with true in H.
      rewrite andb_true_r in H. exact H.
    + apply (f_equal (fun x => Z.testbit x 5)) in H.
      rewrite Z.land_spec in H. change (Z.testbit 160 5) with true in H.
      rewrite andb_true_r in H. exact H.
  - intros [H7 H5]. apply Z.bits_inj'. intros n Hn.
    rewrite Z.land_spec.
    destruct (Z.testbit 160 n) eqn:Hb.
    + destruct (testbit_160 n Hn Hb) as [-> | ->].
      * rewrite H5. reflexivity.
      * rewrite H7. reflexivity.
    + apply andb_false_r.
Qed.

(** X1. [read_stable] answers 1 exactly when bits [0x80] and [0x20] of its
    argument are both set and 0 otherwise, for every integer; and on a byte
    it answers the same whether the byte is read signed, as format [b] does,
    or unsigned. *)
Theorem read_stable_bits (ctr1 : Z) (b : byte) :
  read_stable ctr1 = (if Z.testbit ctr1 7 && Z.testbit ctr1 5 then 1 else 0) /\
  read_stable (int8 b) = read_stable (byte_val b).
Proof.
  split.
  - unfold read_stable.
    destruct (Z.eqb_spec (Z.land ctr1 160) 160) as [Heq | Hne].
    + apply land_160 in Heq as [-> ->]. reflexivity.
    + destruct (Z.testbit ctr1 7) eqn:H7, (Z.testbit ctr1 5) eqn:H5;
        try reflexivity.
      exfalso. apply Hne. apply land_160. auto.
  - destruct b; reflexivity.
Qed.

Lemma byte_val_range (b : byte) : 0 <= byte_val b < 256.
Proof. destruct b; vm_compute; split; congruence. Qed.

Lemma int8_range (b : byte) : -128 <= int8 b <= 127.
Proof.
  unfold int8. pose proof (byte_val_range b).
  destruct (Z.ltb_spec (byte_val b) 128); lia.
Qed.

(** The two bytes of a [>h] field do not overlap. *)
Lemma lor_shiftl_8 (hi lo : Z) :
  0 <= lo < 256 -> Z.lor (Z.shiftl hi 8) lo = hi * 256 + lo.
Proof.
  intros Hlo. rewrite Z.shiftl_mul_pow2 by lia. change (2 ^ 8) with 256.
  symmetry. apply Z.add_nocarry_lor.
  apply Z.bits_inj'. intros n Hn. rewrite Z.land_spec, Z.bits_0.
  destruct (Z_lt_le_dec n 8) as [Hlt | Hge].
  - change 256 with (2 ^ 8). rewrite Z.mul_pow2_bits_low by lia. reflexivity.
  - destruct (Z.eq_dec lo 0) as [-> | Hnz].
    + rewrite Z.bits_0. apply andb_false_r.
    + rewrite (Z.bits_above_log2 lo n); [apply andb_false_r | lia |].
      apply Z.log2_lt_pow2; [lia |].
      apply Z.lt_le_trans with (2 ^ 8); [change (2 ^ 8) with 256; lia |].
      apply Z.pow_le_mono_r; lia.
Qed.

Lemma int16_be_range (hi lo : byte) :
  -32768 <= int16_be hi lo <= 32767 /\
  (int16_be hi lo < 0 <-> 128 <= byte_val hi).
Proof.
  unfold int16_be.
  pose proof (byte_val_range hi). pose proof (byte_val_range lo).
  rewrite lor_shiftl_8 by lia.
  destruct (Z.ltb_spec (byte_val hi * 256 + byte_val lo) 32768); lia.
Qed.

(** Whatever the global namespace, an int comes back only through line 78. *)
Lemma decode_weight_reading_inv
    (globals : gmap string pyobj) (data : list byte) (z : Z) :
  decode_weight globals data = Ret (PyInt z) ->
  (15 <= length data)%nat /\
  exists b10 b11 : byte,
    data !! 10%nat = Some b10 /\ data !! 11%nat = Some b11 /\
    z = int16_be b10 b11 * 100.
Proof.
  intros Hd.
  destruct (decide (length data < 15)%nat) as [Hlt | Hge].
  - rewrite (decode_weight_truncated globals data Hlt) in Hd. discriminate Hd.
  - split; [lia |].
    destruct (slice_9_15 data ltac:(lia))
      as (b9 & b10 & b11 & b12 & b13 & b14 & Hs & _ & H10 & H11 & _).
    exists b10, b11. split; [exact H10 |]. split; [exact H11 |].
    rewrite (decode_weight_unpacked globals data _ _ _ _ _ _ Hs) in Hd.
    destruct (call_global globals "read_stable" (int8 b14)) as [st | e];
      simpl in Hd; [| discriminate Hd].
    destruct (st =? 0); [discriminate Hd |]. congruence.
Qed.

(** X2. Whatever [read_stable] resolves to, a weight comes back only for a
    payload of at least 15 bytes, and it is 100 times the signed big-endian
    16-bit field at bytes 10-11: a multiple of 100 between -3276800 and
    3276700, negative exactly when byte 10 has its top bit set.  Nothing is
    clamped or rounded. *)
Theorem decode_weight_reading_range
    (globals : gmap string pyobj) (data : list byte) (z : Z) :
  decode_weight globals data = Ret (PyInt z) ->
  (15 <= length data)%nat /\
  exists b10 b11 : byte,
    data !! 10%nat = Some b10 /\ data !! 11%nat = Some b11 /\
    z = int16_be b10 b11 * 100 /\
    -3276800 <= z <= 3276700 /\
    (z < 0 <-> 128 <= byte_val b10).
Proof.
  intros Hd.
  destruct (decode_weight_reading_inv globals data z Hd)
    as (Hlen & b10 & b11 & H10 & H11 & Hz).
  split; [exact Hlen |]. exists b10, b11.
  destruct (int16_be_range b10 b11) as [Hr Hneg].
  repeat split; try assumption; try lia.
Qed.

Lemma decode_weight_reading_range_witness :
  (15 <= length scenario_payload)%nat /\
  exists b10 b11 : byte,
    scenario_payload !! 10%nat = Some b10 /\
    scenario_payload !! 11%nat = Some b11 /\
    500 = int16_be b10 b11 * 100 /\
    -3276800 <= 500 <= 3276700 /\
    (500 < 0 <-> 128 <= byte_val b10).
Proof.
  apply (decode_weight_reading_range helper_globals scenario_payload 500).
  vm_compute. reflexivity.
Defined.

(** X3. In the module as written the decoder returns for no payload: one
    shorter than 15 bytes stops at [unpack] with [struct.error], every other
    one at the call of line 70 with [NameError]. *)
Theorem decode_weight_module_outcome (data : list byte) :
  decode_weight module_globals data =
    Raise (if (length data <? 15)%nat then StructError
           else NameError "read_stable").
Proof.
  destruct (Nat.ltb_spec (length data) 15) as [Hlt | Hge].
  - exact (decode_weight_truncated module_globals data Hlt).
  - apply decode_weight_unbound; [exact module_globals_read_stable | exact Hge].
Qed.

(** ** What each method leaves *)

Lemma notification_handler_world
    (globals : gmap string pyobj) (data : list byte) (w : world) :
  notification_handler globals data w =
    match decode_weight globals data with
    | Ret (PyInt z) => (notified z w, Ret tt)
    | Ret PyNone => (w, Raise TypeError)
    | Raise e => (w, Raise e)
    end.
Proof.
  unfold notification_handler, mbind, stmt_bind, lift.
  destruct (decode_weight globals data) as [[| z] | e]; try reflexivity.
  simpl. unfold notified, timers_after_cancel.
  destruct (_disconnect_timer (self w)); simpl; rewrite ?length_alter;
    reflexivity.
Qed.

Lemma _disconnect_world (r : outcome unit) (w : world) :
  _disconnect r w = (disconnected r w, Ret tt).
Proof.
  unfold _disconnect, try_finally, try_except, client_disconnect, disconnected.
  unfold mbind, stmt_bind, get, raise, modify, assign, skip, mret, stmt_ret.
  destruct (_client (self w)) as [c |], r as [[] | e]; reflexivity.
Qed.

Lemma removal_world (r : outcome unit) (w : world) :
  async_will_remove_from_hass r w = (disconnected r (retry_cancelled w), Ret tt).
Proof.
  unfold async_will_remove_from_hass, retry_cancelled.
  unfold mbind, stmt_bind, get. simpl.
  destruct (_retry_task (self w)); simpl; apply _disconnect_world.
Qed.

Lemma disconnect_world (w : world) :
  disconnect w =
    (if holds_connection w
     then set_tasks (tasks w ++ [Task Disconnect Pending]) w
     else w, Ret tt).
Proof.
  unfold disconnect, mbind, stmt_bind, client_connected.
  destruct (holds_connection w); reflexivity.
Qed.

(** ** What holds between events *)

Lemma steady_init (address : string) : steady (__init__ address).
Proof.
  split; simpl; try reflexivity; try apply Forall_nil_2.
  exact (retry_tracked_init address).
Qed.

Lemma steady_after_connect (rc rn : outcome unit) (w : world) :
  steady w -> steady (after_connect rc rn w).
Proof.
  intros [Hl Hr Hi Ht Hw Hc Hn].
  assert (Hr' : retry_tracked (after_connect rc rn w)).
  { pose proof (retry_tracked_connect rc rn w Hl Hr) as H.
    rewrite (connect_world rc rn w Hl) in H. exact H. }
  unfold after_connect in *.
  destruct (holds_connection w); [split; assumption |].
  assert (Hc' : Forall (fun cl => c_address cl = _address (self w))
                       (clients w ++ [Client (_address (self w)) false false])).
  { apply Forall_app. split; [exact Hc |]. apply Forall_singleton. reflexivity. }
  destruct rc as [[] | e]; [destruct rn as [[] | e'] |];
    split; simpl; try assumption; try reflexivity.
  - apply Forall_app. split; [exact Ht |]. apply Forall_singleton. reflexivity.
  - apply Forall_alter; [| intros cl _ H; exact H].
    apply Forall_alter; [exact Hc' | intros cl _ H; exact H].
  - rewrite !length_alter, length_app, Hn. simpl. lia.
  - apply Forall_alter; [exact Hc' | intros cl _ H; exact H].
  - rewrite length_alter, length_app, Hn. simpl. lia.
  - rewrite length_app, Hn. simpl. lia.
Qed.

Lemma steady_notified (z : Z) (w : world) : steady w -> steady (notified z w).
Proof.
  intros [Hl Hr Hi Ht Hw Hc Hn].
  split; simpl.
  - exact Hl.
  - exact (retry_tracked_ext w (notified z w) eq_refl eq_refl Hr).
  - exact Hi.
  - apply Forall_app. split; [| apply Forall_singleton; reflexivity].
    unfold timers_after_cancel.
    destruct (_disconnect_timer (self w)); [| exact Ht].
    apply Forall_alter; [exact Ht | intros t _ H; exact H].
  - apply Forall_app. split; [exact Hw |].
    apply Forall_singleton. intros _. exists z. reflexivity.
  - exact Hc.
  - exact Hn.
Qed.

Lemma steady_disconnected (r : outcome unit) (w : world) :
  steady w -> steady (disconnected r w).
Proof.
  intros [Hl Hr Hi Ht Hw Hc Hn].
  split; simpl.
  - exact Hl.
  - exact (retry_tracked_ext w (disconnected r w) eq_refl eq_refl Hr).
  - exact Hi.
  - exact Ht.
  - apply Forall_app. split; [exact Hw |].
    apply Forall_singleton. simpl. intros H. discriminate H.
  - destruct (_client (self w)) as [c |], r as [[] | e]; simpl; try exact Hc.
    apply Forall_alter; [exact Hc | intros cl _ H; exact H].
  - destruct (_client (self w)) as [c |], r as [[] | e]; simpl; try exact Hn.
    rewrite length_alter. exact Hn.
Qed.

Lemma steady_retry_cancelled (w : world) : steady w -> steady (retry_cancelled w).
Proof.
  intros Hs.
  assert (Hr' : retry_tracked (retry_cancelled w)).
  { destruct Hs as [_ Hr _ _ _ _ _]. unfold retry_cancelled.
    destruct (_retry_task (self w)) as [k |] eqn:Hk; [| exact Hr].
    intros h Hp. simpl. rewrite Hk. f_equal.
    destruct (decide (k = h)) as [-> | Hne]; [reflexivity |].
    unfold pending_retry in Hp. simpl in Hp.
    rewrite list_lookup_alter_ne in Hp by exact Hne.
    specialize (Hr h Hp). congruence. }
  destruct Hs as [Hl Hr Hi Ht Hw Hc Hn].
  unfold retry_cancelled in *.
  destruct (_retry_task (self w)); split; simpl; assumption.
Qed.

Lemma steady_idle_timer (w : world) : steady w -> steady (fst (disconnect w)).
Proof.
  intros Hs.
  pose proof (retry_tracked_idle_timer w (steady_retry w Hs)) as Hr'.
  rewrite disconnect_world in *. simpl in *.
  destruct Hs as [Hl Hr Hi Ht Hw Hc Hn].
  destruct (holds_connection w); split; simpl; assumption.
Qed.

Lemma steady_link_lost (c : nat) (w : world) :
  steady w -> steady (transport_closed c w).
Proof.
  intros [Hl Hr Hi Ht Hw Hc Hn].
  split; simpl.
  - exact Hl.
  - exact (retry_tracked_ext w (transport_closed c w) eq_refl eq_refl Hr).
  - exact Hi.
  - exact Ht.
  - exact Hw.
  - apply Forall_alter; [exact Hc | intros cl _ H; exact H].
  - rewrite length_alter. exact Hn.
Qed.

Lemma steady_finished (h : nat) (w : world) : steady w -> steady (finished h w).
Proof.
  intros [Hl Hr Hi Ht Hw Hc Hn].
  split; simpl; try assumption.
  exact (retry_tracked_finished h w Hr).
Qed.

Lemma steady_retry_task (h : nat) (elapsed : Z) (rc rn : outcome unit) (w : world) :
  steady w -> steady (fst (_retry_connect h elapsed rc rn w)).
Proof.
  intros Hs.
  destruct (_retry_connect_cases h elapsed rc rn w (steady_lock w Hs)) as [-> | ->];
    [exact Hs |].
  exact (steady_finished h _ (steady_after_connect rc rn w Hs)).
Qed.

Lemma steady_react (globals : gmap string pyobj) (ev : event) (w : world) :
  steady w -> steady (react globals ev w).
Proof.
  intros Hs. destruct ev as [rc rn | data | | r | h elapsed rc rn | r | c]; simpl.
  - rewrite (async_update_world rc rn w (steady_lock w Hs)).
    exact (steady_after_connect rc rn w Hs).
  - rewrite notification_handler_world.
    destruct (decode_weight globals data) as [[| z] | e]; simpl;
      [exact Hs | exact (steady_notified z w Hs) | exact Hs].
  - exact (steady_idle_timer w Hs).
  - rewrite _disconnect_world. exact (steady_disconnected r w Hs).
  - exact (steady_retry_task h elapsed rc rn w Hs).
  - rewrite removal_world. simpl.
    exact (steady_disconnected r _ (steady_retry_cancelled w Hs)).
  - exact (steady_link_lost c w Hs).
Qed.

Lemma steady_run (globals : gmap string pyobj) (evs : list event) (w : world) :
  steady w -> steady (run globals evs w).
Proof.
  revert w. induction evs as [| ev evs IH]; intros w Hs; [exact Hs |].
  simpl. apply IH. exact (steady_react globals ev w Hs).
Qed.

(** No method assigns [_address]. *)
Lemma address_react (globals : gmap string pyobj) (ev : event) (w : world) :
  steady w -> _address (self (react globals ev w)) = _address (self w).
Proof.
  intros Hs. destruct ev as [rc rn | data | | r | h elapsed rc rn | r | c];
    unfold react.
  - rewrite (async_update_world rc rn w (steady_lock w Hs)). simpl.
    unfold after_connect. destruct (holds_connection w); [reflexivity |].
    destruct rc as [[] | e]; [destruct rn as [[] | e'] |]; reflexivity.
  - rewrite notification_handler_world.
    destruct (decode_weight globals data) as [[| z] | e]; reflexivity.
  - rewrite disconnect_world. destruct (holds_connection w); reflexivity.
  - rewrite _disconnect_world. reflexivity.
  - destruct (_retry_connect_cases h elapsed rc rn w (steady_lock w Hs))
      as [-> | ->]; [reflexivity |].
    simpl. unfold after_connect. destruct (holds_connection w); [reflexivity |].
    destruct rc as [[] | e]; [destruct rn as [[] | e'] |]; reflexivity.
  - rewrite removal_world. simpl. unfold retry_cancelled.
    destruct (_retry_task (self w)); reflexivity.
  - reflexivity.
Qed.

Lemma address_run (globals : gmap string pyobj) (evs : list event) (w : world) :
  steady w -> _address (self (run globals evs w)) = _address (self w).
Proof.
  revert w. induction evs as [| ev evs IH]; intros w Hs; [reflexivity |].
  simpl. rewrite (IH _ (steady_react globals ev w Hs)).
  exact (address_react globals ev w Hs).
Qed.

(** X4. Whatever events the entity has gone through since [__init__], at
    most one retry is pending, and it is the task held in [_retry_task]:
    every new retry cancels the one before it. *)
Theorem one_retry_at_any_time
    (globals : gmap string pyobj) (address : string) (evs : list event)
    (h1 h2 : nat) :
  pending_retry (run globals evs (__init__ address)) h1 ->
  pending_retry (run globals evs (__init__ address)) h2 ->
  h1 = h2 /\
  _retry_task (self (run globals evs (__init__ address))) = Some h1.
Proof.
  intros H1 H2.
  pose proof (steady_retry _ (steady_run globals evs _ (steady_init address)))
    as Htr.
  pose proof (Htr h1 H1) as E1. pose proof (Htr h2 H2) as E2.
  split; [congruence | exact E1].
Qed.

Lemma one_retry_at_any_time_witness :
  0%nat = 0%nat /\
  _retry_task (self (run module_globals
                       [Poll (Raise TimeoutError) (Ret tt)]
                       (__init__ "C8:B2:1E:00:00:01"))) = Some 0%nat.
Proof.
  apply (one_retry_at_any_time module_globals "C8:B2:1E:00:00:01"
           [Poll (Raise TimeoutError) (Ret tt)] 0 0); reflexivity.
Defined.

(** X5. Whatever events the entity has gone through since [__init__], every
    state it has pushed to the host as available carries a weight: the handler
    pushes only after storing a reading, and the disconnect path pushes only
    after clearing the flag. *)
Theorem pushed_available_has_weight
    (globals : gmap string pyobj) (address : string) (evs : list event)
    (v : pyval) :
  (v, true) ∈ written (run globals evs (__init__ address)) ->
  exists z : Z, v = PyInt z.
Proof.
  intros Hin.
  pose proof (steady_written _ (steady_run globals evs _ (steady_init address)))
    as Hw.
  rewrite Forall_forall in Hw. exact (Hw (v, true) Hin eq_refl).
Qed.

Lemma pushed_available_has_weight_witness : exists z : Z, PyInt 500 = PyInt z.
Proof.
  apply (pushed_available_has_weight helper_globals "C8:B2:1E:00:00:01"
           [Poll (Ret tt) (Ret tt); Notification scenario_payload] (PyInt 500)).
  vm_compute. apply list_elem_of_here.
Defined.

(** X6. Whatever events the entity has gone through since [__init__]: its
    address and retry interval are the ones [__init__] set, every client was
    created for that address, [connect()] was called as many times as clients
    were created, and every idle timer was armed for 60 seconds. *)
Theorem constants_never_change
    (globals : gmap string pyobj) (address : string) (evs : list event) :
  let w := run globals evs (__init__ address) in
  _address (self w) = address /\
  _connection_retry_interval (self w) = 60 /\
  Forall (fun cl => c_address cl = address) (clients w) /\
  connect_calls w = length (clients w) /\
  Forall (fun t => t_delay t = 60) (timers w).
Proof.
  intros w.
  pose proof (steady_run globals evs _ (steady_init address)) as Hs.
  pose proof (address_run globals evs _ (steady_init address)) as Ha.
  fold w in Hs, Ha. simpl in Ha.
  destruct Hs as [_ _ Hi Ht _ Hc Hn].
  rewrite Ha in Hc. auto.
Qed.

(** ** The module as written never reports a weight *)

Lemma after_connect_frame (rc rn : outcome unit) (w : world) :
  _state (self (after_connect rc rn w)) = _state (self w) /\
  written (after_connect rc rn w) = written w.
Proof.
  unfold after_connect. destruct (holds_connection w); [auto |].
  destruct rc as [[] | e]; [destruct rn as [[] | e'] |]; auto.
Qed.

Lemma silent_react (ev : event) (w : world) :
  steady w -> silent_world w -> silent_world (react module_globals ev w).
Proof.
  intros Hs [Hst Hw].
  destruct ev as [rc rn | data | | r | h elapsed rc rn | r | c]; unfold react.
  - rewrite (async_update_world rc rn w (steady_lock w Hs)). simpl.
    destruct (after_connect_frame rc rn w) as [E1 E2].
    split; [congruence | rewrite E2; exact Hw].
  - destruct (notification_handler_module_raises data w) as [e ->].
    split; assumption.
  - rewrite disconnect_world. destruct (holds_connection w); split; assumption.
  - rewrite _disconnect_world. split; simpl; [exact Hst |].
    apply Forall_app. split; [exact Hw |].
    apply Forall_singleton. rewrite Hst. reflexivity.
  - destruct (_retry_connect_cases h elapsed rc rn w (steady_lock w Hs))
      as [-> | ->]; [split; assumption |].
    destruct (after_connect_frame rc rn w) as [E1 E2].
    split; simpl; [rewrite E1; exact Hst | rewrite E2; exact Hw].
  - rewrite removal_world. simpl.
    assert (E1 : _state (self (retry_cancelled w)) = _state (self w))
      by (unfold retry_cancelled; destruct (_retry_task (self w)); reflexivity).
    assert (E2 : written (retry_cancelled w) = written w)
      by (unfold retry_cancelled; destruct (_retry_task (self w)); reflexivity).
    split; simpl; [rewrite E1; exact Hst |].
    rewrite E1, E2. apply Forall_app. split; [exact Hw |].
    apply Forall_singleton. rewrite Hst. reflexivity.
  - split; assumption.
Qed.

(** X7. In the module as written the entity never reports a weight: whatever
    events it goes through after [__init__], notifications of any content
    included, [state] stays [None] and every state pushed to the host is
    [None] and unavailable. *)
Theorem module_never_reports_a_weight (address : string) (evs : list event) :
  let w := run module_globals evs (__init__ address) in
  _state (self w) = PyNone /\
  Forall (fun p : pyval * bool => p = (PyNone, false)) (written w).
Proof.
  intros w. subst w.
  assert (Hgen : forall (evs : list event) (w : world),
             steady w -> silent_world w ->
             silent_world (run module_globals evs w)).
  { clear evs. intros evs. induction evs as [| ev evs IH]; intros w Hs Hq;
      [exact Hq |].
    simpl. apply IH; [exact (steady_react module_globals ev w Hs) |].
    exact (silent_react ev w Hs Hq). }
  apply Hgen; [exact (steady_init address) |].
  split; [reflexivity | apply Forall_nil_2].
Qed.

(** ** Connecting *)

(** X8. Whatever the transport answers, a call of [connect] that finds the
    lock free returns normally with the lock free again, after at most one
    call of [BleakClient.connect], and without touching the stored weight or
    pushing a state to the host. *)
Theorem connect_returns_lock_free (rc rn : outcome unit) (w : world) :
  _connect_lock (self w) = false ->
  exists w' : world,
    connect rc rn w = (w', Ret Returned) /\
    _connect_lock (self w') = false /\
    (connect_calls w' <= S (connect_calls w))%nat /\
    _state (self w') = _state (self w) /\
    written w' = written w.
Proof.
  intros Hlock. exists (after_connect rc rn w).
  split; [exact (connect_world rc rn w Hlock) |].
  destruct (after_connect_frame rc rn w) as [E1 E2].
  repeat split; try assumption.
  - unfold after_connect. destruct (holds_connection w); [exact Hlock |].
    destruct rc as [[] | e]; [destruct rn as [[] | e'] |]; reflexivity.
  - unfold after_connect. destruct (holds_connection w); [lia |].
    destruct rc as [[] | e]; [destruct rn as [[] | e'] |]; simpl; lia.
Qed.

Lemma connect_returns_lock_free_witness :
  exists w' : world,
    connect (Ret tt) (Raise BleakError) fresh_world = (w', Ret Returned) /\
    _connect_lock (self w') = false /\
    (connect_calls w' <= S (connect_calls fresh_world))%nat /\
    _state (self w') = _state (self fresh_world) /\
    written w' = written fresh_world.
Proof.
  apply (connect_returns_lock_free (Ret tt) (Raise BleakError) fresh_world).
  reflexivity.
Defined.

Lemma pending_timer_app (w : world) (ts : list timer) (h : nat) :
  pending_timer w h ->
  exists d : Z, (timers w ++ ts) !! h = Some (Timer d false).
Proof.
  intros [d Hd]. exists d. apply lookup_app_l_Some. exact Hd.
Qed.

(** X9. A connect attempt on which the transport answers well leaves the
    entity holding a new client, made for its address, connected and
    notifying; the entity is available, [connect()] was called once, and a
    new idle timer of 60 seconds is held.  Nothing is cancelled on the way:
    every timer and every retry that was pending still is. *)
Theorem connect_success (w : world) :
  _connect_lock (self w) = false ->
  holds_connection w = false ->
  exists w' : world,
    connect (Ret tt) (Ret tt) w = (w', Ret Returned) /\
    _client (self w') = Some (length (clients w)) /\
    clients w' !! length (clients w) = Some (Client (_address (self w)) true true) /\
    holds_connection w' = true /\
    _available (self w') = true /\
    connect_calls w' = S (connect_calls w) /\
    _disconnect_timer (self w') = Some (length (timers w)) /\
    timers w' = timers w ++ [Timer 60 false] /\
    (forall h : nat, pending_timer w h -> pending_timer w' h) /\
    (forall h : nat, pending_retry w h -> pending_retry w' h).
Proof.
  intros Hlock Hconn.
  exists (armed (length (clients w)) (linked (length (clients w)) (begun w))).
  split; [exact (connect_success_world w Hlock Hconn) |].
  split; [reflexivity |].
  split.
  { simpl. rewrite !list_lookup_alter_eq.
    rewrite list_lookup_middle by reflexivity. reflexivity. }
  split; [exact (connect_success_holds w) |].
  repeat split.
  - intros h Hp. exact (pending_timer_app w [Timer 60 false] h Hp).
  - intros h Hp. exact Hp.
Qed.

Lemma connect_success_witness :
  exists w' : world,
    connect (Ret tt) (Ret tt) fresh_world = (w', Ret Returned) /\
    _client (self w') = Some (length (clients fresh_world)) /\
    clients w' !! length (clients fresh_world)
      = Some (Client (_address (self fresh_world)) true true) /\
    holds_connection w' = true /\
    _available (self w') = true /\
    connect_calls w' = S (connect_calls fresh_world) /\
    _disconnect_timer (self w') = Some (length (timers fresh_world)) /\
    timers w' = timers fresh_world ++ [Timer 60 false] /\
    (forall h : nat, pending_timer fresh_world h -> pending_timer w' h) /\
    (forall h : nat, pending_retry fresh_world h -> pending_retry w' h).
Proof. apply (connect_success fresh_world); reflexivity. Defined.

(** ** A notification with a reading *)

Lemma timers_after_cancel_none_pending (w : world) (h : nat) (d : Z) :
  timer_tracked w ->
  timers_after_cancel w !! h <> Some (Timer d false).
Proof.
  intros Htr Hp. unfold timers_after_cancel in Hp.
  destruct (_disconnect_timer (self w)) as [k |] eqn:Hk.
  - destruct (decide (k = h)) as [-> | Hne].
    + rewrite list_lookup_alter_eq in Hp.
      destruct (timers w !! h) as [[d' c] |]; simpl in Hp; discriminate Hp.
    + rewrite list_lookup_alter_ne in Hp by exact Hne.
      assert (Hpt : pending_timer w h) by (exists d; exact Hp).
      specialize (Htr h Hpt). congruence.
  - assert (Hpt : pending_timer w h) by (exists d; exact Hp).
    specialize (Htr h Hpt). congruence.
Qed.

Lemma timers_after_cancel_length (w : world) :
  length (timers_after_cancel w) = length (timers w).
Proof.
  unfold timers_after_cancel.
  destruct (_disconnect_timer (self w)); [apply length_alter | reflexivity].
Qed.

(** X10. When the decoder gives a reading, the handler returns normally: the
    weight is stored as it is, the entity is available, that state is pushed
    to the host once, and the client, the tasks and the lock are untouched.
    The timer it held is cancelled, one timer is added, armed for 60 seconds
    and not cancelled, and that one is held; if no timer other than the held
    one was pending before, it is the only one pending after. *)
Theorem notification_with_reading
    (globals : gmap string pyobj) (data : list byte) (z : Z) (w : world) :
  decode_weight globals data = Ret (PyInt z) ->
  exists w' : world,
    notification_handler globals data w = (w', Ret tt) /\
    _state (self w') = PyInt z /\
    _available (self w') = true /\
    written w' = written w ++ [(PyInt z, true)] /\
    _client (self w') = _client (self w) /\
    clients w' = clients w /\
    tasks w' = tasks w /\
    _connect_lock (self w') = _connect_lock (self w) /\
    _disconnect_timer (self w') = Some (length (timers w)) /\
    length (timers w') = S (length (timers w)) /\
    timers w' !! length (timers w) = Some (Timer 60 false) /\
    (forall (h : nat) (t : timer),
        _disconnect_timer (self w) = Some h -> timers w !! h = Some t ->
        timers w' !! h = Some (Timer (t_delay t) true) /\
        ~ pending_timer w' h) /\
    (timer_tracked w ->
     forall h : nat, pending_timer w' h <-> h = length (timers w)).
Proof.
  intros Hd. exists (notified z w).
  split; [rewrite notification_handler_world, Hd; reflexivity |].
  assert (Hnew : timers (notified z w) !! length (timers w)
                 = Some (Timer 60 false)).
  { simpl. rewrite <- (timers_after_cancel_length w).
    apply list_lookup_middle. reflexivity. }
  repeat (split; [reflexivity |]).
  split.
  { simpl. rewrite length_app, timers_after_cancel_length. simpl. lia. }
  split; [exact Hnew |].
  split.
  - intros h t Hh Ht.
    assert (Hc : timers (notified z w) !! h = Some (Timer (t_delay t) true)).
    { simpl.
      rewrite lookup_app_l
        by (rewrite timers_after_cancel_length; exact (lookup_lt_Some _ _ _ Ht)).
      unfold timers_after_cancel. rewrite Hh.
      rewrite list_lookup_alter_eq, Ht. reflexivity. }
    split; [exact Hc |].
    intros [d Hp]. rewrite Hc in Hp. discriminate Hp.
  - intros Htr h. split; [| intros ->; exists 60; exact Hnew].
    intros [d Hp]. simpl in Hp.
    destruct (decide (h < length (timers_after_cancel w))%nat) as [Hlt | Hge].
    + rewrite lookup_app_l in Hp by exact Hlt.
      exfalso. exact (timers_after_cancel_none_pending w h d Htr Hp).
    + apply lookup_lt_Some in Hp. rewrite length_app in Hp. simpl in Hp.
      rewrite timers_after_cancel_length in *. lia.
Qed.

Lemma connected_world_timer_tracked : timer_tracked connected_world.
Proof.
  intros h [d Hp]. destruct h as [| h]; [reflexivity |].
  destruct h; discriminate Hp.
Defined.

Lemma notification_with_reading_witness :
  exists w' : world,
    notification_handler helper_globals scenario_payload connected_world
      = (w', Ret tt) /\
    _state (self w') = PyInt 500 /\
    _available (self w') = true /\
    written w' = written connected_world ++ [(PyInt 500, true)] /\
    _client (self w') = _client (self connected_world) /\
    clients w' = clients connected_world /\
    tasks w' = tasks connected_world /\
    _connect_lock (self w') = _connect_lock (self connected_world) /\
    _disconnect_timer (self w') = Some (length (timers connected_world)) /\
    length (timers w') = S (length (timers connected_world)) /\
    timers w' !! length (timers connected_world) = Some (Timer 60 false) /\
    (forall (h : nat) (t : timer),
        _disconnect_timer (self connected_world) = Some h ->
        timers connected_world !! h = Some t ->
        timers w' !! h = Some (Timer (t_delay t) true) /\
        ~ pending_timer w' h) /\
    (timer_tracked connected_world ->
     forall h : nat, pending_timer w' h <-> h = length (timers connected_world)).
Proof.
  apply (notification_with_reading helper_globals scenario_payload 500
           connected_world).
  vm_compute. reflexivity.
Defined.

(** ** Retries *)

Lemma async_update_connected (rc rn : outcome unit) (w : world) :
  holds_connection w = true -> async_update rc rn w = (w, Ret Returned).
Proof.
  intros Hconn. unfold async_update, mbind, stmt_bind, client_connected.
  rewrite Hconn. reflexivity.
Qed.

Lemma async_update_not_connected (rc rn : outcome unit) (w : world) :
  holds_connection w = false -> async_update rc rn w = connect rc rn w.
Proof.
  intros Hconn. unfold async_update, mbind, stmt_bind, client_connected.
  rewrite Hconn. reflexivity.
Qed.

(** X11. A retry whose interval has gone by, on an entity that holds a
    connected client by then, only finishes: the task is marked done, and no
    client is created, no transport call made, no attribute assigned. *)
Theorem retry_when_connected_does_nothing
    (h : nat) (elapsed : Z) (rc rn : outcome unit) (w : world) :
  pending_retry w h ->
  holds_connection w = true ->
  _connection_retry_interval (self w) <= elapsed ->
  _retry_connect h elapsed rc rn w =
    (set_tasks (<[h := Task RetryConnect Done]> (tasks w)) w, Ret tt).
Proof.
  intros Hp Hconn Hel.
  rewrite (_retry_connect_due h elapsed rc rn w Hp Hel).
  unfold try_finally, mbind, stmt_bind.
  rewrite (async_update_connected rc rn w Hconn).
  unfold skip, mret, stmt_ret, task_finished, modify.
  rewrite (alter_lookup_insert _ (tasks w) h _ Hp). reflexivity.
Qed.

(** An entity on which a retry is pending while it is connected: the first
    attempt failed in [start_notify], after [connect()] had succeeded. *)
Lemma retry_when_connected_does_nothing_witness :
  _retry_connect 0 60 (Ret tt) (Ret tt)
    (fst (connect (Ret tt) (Raise BleakError) fresh_world)) =
    (set_tasks (<[0%nat := Task RetryConnect Done]>
                  (tasks (fst (connect (Ret tt) (Raise BleakError) fresh_world))))
               (fst (connect (Ret tt) (Raise BleakError) fresh_world)),
     Ret tt).
Proof.
  apply (retry_when_connected_does_nothing 0 60 (Ret tt) (Ret tt)
           (fst (connect (Ret tt) (Raise BleakError) fresh_world))).
  - reflexivity.
  - reflexivity.
  - vm_compute. discriminate.
Defined.

Lemma awaiting_retry_tracked : retry_tracked awaiting_retry.
Proof.
  intros h Hp. destruct h as [| h]; [reflexivity |].
  destruct h; discriminate Hp.
Defined.

(** One round: a due retry whose attempt fails in [BleakClient.connect]. *)
Lemma retry_round (e : exn) (h : nat) (w : world) :
  _connect_lock (self w) = false ->
  retry_tracked w ->
  pending_retry w h ->
  holds_connection w = false ->
  exists w1 : world,
    _retry_connect h (_connection_retry_interval (self w)) (Raise e) (Ret tt) w
      = (w1, Ret tt) /\
    _connect_lock (self w1) = false /\
    retry_tracked w1 /\
    pending_retry w1 (length (tasks w)) /\
    holds_connection w1 = false /\
    connect_calls w1 = S (connect_calls w) /\
    _available (self w1) = false /\
    _retry_task (self w1) = Some (length (tasks w)) /\
    length (tasks w1) = S (length (tasks w)) /\
    _connection_retry_interval (self w1) = _connection_retry_interval (self w) /\
    tasks w1 !! h = Some (Task RetryConnect Cancelled) /\
    (forall (i : nat) (c : coro),
        tasks w !! i = Some (Task c Cancelled) ->
        tasks w1 !! i = Some (Task c Cancelled)).
Proof.
  intros Hlock Htr Hp Hconn.
  assert (Hheld : _retry_task (self w) = Some h) by exact (Htr h Hp).
  assert (Hlt : (h < length (tasks w))%nat) by exact (lookup_lt_Some _ _ _ Hp).
  exists (finished h (after_connect (Raise e) (Ret tt) w)).
  split; [apply (_retry_connect_world h _ (Raise e) (Ret tt) w Hlock Hp); lia |].
  assert (Htr1 : retry_tracked (finished h (after_connect (Raise e) (Ret tt) w))).
  { apply retry_tracked_finished.
    pose proof (retry_tracked_async_update (Raise e) (Ret tt) w Hlock Htr) as H.
    rewrite (async_update_world (Raise e) (Ret tt) w Hlock) in H. exact H. }
  unfold after_connect in *. rewrite Hconn in *.
  split; [reflexivity |].
  split; [exact Htr1 |].
  assert (Hnew : pending_retry (finished h (failed (begun w))) (length (tasks w))).
  { apply pending_retry_finished. split; [| lia].
    unfold pending_retry. simpl. rewrite <- (tasks_after_cancel_length w).
    apply list_lookup_middle. reflexivity. }
  split; [exact Hnew |].
  assert (Ht1 : tasks (finished h (failed (begun w)))
                = alter (fun k => Task (k_coro k) (finish_status (k_status k))) h
                        (tasks_after_cancel w ++ [Task RetryConnect Pending]))
    by reflexivity.
  split.
  { unfold holds_connection, connected_at. simpl.
    rewrite list_lookup_middle by reflexivity. reflexivity. }
  split; [reflexivity |].
  split; [reflexivity |].
  split; [reflexivity |].
  split.
  { rewrite Ht1, length_alter, length_app, tasks_after_cancel_length.
    simpl. lia. }
  split; [reflexivity |].
  split.
  { rewrite Ht1, list_lookup_alter_eq.
    rewrite lookup_app_l by (rewrite tasks_after_cancel_length; exact Hlt).
    unfold tasks_after_cancel. rewrite Hheld.
    rewrite list_lookup_alter_eq. unfold pending_retry in Hp. rewrite Hp.
    reflexivity. }
  intros i c Hi.
  assert (Hi' : (i < length (tasks w))%nat) by exact (lookup_lt_Some _ _ _ Hi).
  rewrite Ht1.
  assert (Hmid : (tasks_after_cancel w ++ [Task RetryConnect Pending]) !! i
                 = Some (Task c Cancelled)).
  { rewrite lookup_app_l by (rewrite tasks_after_cancel_length; exact Hi').
    unfold tasks_after_cancel. rewrite Hheld.
    destruct (decide (h = i)) as [-> | Hne].
    - rewrite list_lookup_alter_eq, Hi. reflexivity.
    - rewrite list_lookup_alter_ne by exact Hne. exact Hi. }
  destruct (decide (h = i)) as [-> | Hne].
  - rewrite list_lookup_alter_eq, Hmid. reflexivity.
  - rewrite list_lookup_alter_ne by exact Hne. exact Hmid.
Qed.

Lemma retry_rounds_step (e : exn) (es : list exn) (h : nat) (w w1 : world) :
  _retry_task (self w) = Some h ->
  _retry_connect h (_connection_retry_interval (self w)) (Raise e) (Ret tt) w
    = (w1, Ret tt) ->
  retry_rounds (e :: es) w = retry_rounds es w1.
Proof. intros Hh Hrun. simpl. rewrite Hh, Hrun. reflexivity. Qed.

(** X12. As long as [BleakClient.connect] keeps failing the entity keeps
    retrying at the same interval.  On an entity with the lock free, no
    connection and its one retry pending, run any number of rounds, in each
    of which the interval goes by, the held retry task runs and
    [BleakClient.connect] raises again: every round makes one call of
    [BleakClient.connect]; after the last one the entity is unavailable and
    unconnected, the interval is the one it was, and exactly one retry is
    pending, a new task held in [_retry_task]; every retry task that ran has
    ended cancelled, by the [_schedule_retry] it ran itself. *)
Theorem retry_chain (e : exn) (es : list exn) (h : nat) (w : world) :
  _connect_lock (self w) = false ->
  retry_tracked w ->
  pending_retry w h ->
  holds_connection w = false ->
  connect_calls (retry_rounds (e :: es) w)
    = (connect_calls w + S (length es))%nat /\
  _available (self (retry_rounds (e :: es) w)) = false /\
  holds_connection (retry_rounds (e :: es) w) = false /\
  _connect_lock (self (retry_rounds (e :: es) w)) = false /\
  _connection_retry_interval (self (retry_rounds (e :: es) w))
    = _connection_retry_interval (self w) /\
  _retry_task (self (retry_rounds (e :: es) w))
    = Some (length (tasks w) + length es)%nat /\
  (forall h' : nat,
      pending_retry (retry_rounds (e :: es) w) h' <->
      h' = (length (tasks w) + length es)%nat) /\
  tasks (retry_rounds (e :: es) w) !! h = Some (Task RetryConnect Cancelled) /\
  (forall i : nat,
      (length (tasks w) <= i < length (tasks w) + length es)%nat ->
      tasks (retry_rounds (e :: es) w) !! i = Some (Task RetryConnect Cancelled)).
Proof.
  intros Hlock Htr Hp Hconn.
  assert (Hgen :
    connect_calls (retry_rounds (e :: es) w)
      = (connect_calls w + S (length es))%nat /\
    _available (self (retry_rounds (e :: es) w)) = false /\
    holds_connection (retry_rounds (e :: es) w) = false /\
    _connect_lock (self (retry_rounds (e :: es) w)) = false /\
    _connection_retry_interval (self (retry_rounds (e :: es) w))
      = _connection_retry_interval (self w) /\
    _retry_task (self (retry_rounds (e :: es) w))
      = Some (length (tasks w) + length es)%nat /\
    retry_tracked (retry_rounds (e :: es) w) /\
    pending_retry (retry_rounds (e :: es) w) (length (tasks w) + length es) /\
    tasks (retry_rounds (e :: es) w) !! h = Some (Task RetryConnect Cancelled) /\
    (forall i : nat,
        (length (tasks w) <= i < length (tasks w) + length es)%nat ->
        tasks (retry_rounds (e :: es) w) !! i
          = Some (Task RetryConnect Cancelled)) /\
    (forall (i : nat) (c : coro),
        tasks w !! i = Some (Task c Cancelled) ->
        tasks (retry_rounds (e :: es) w) !! i = Some (Task c Cancelled))).
  { revert e h w Hlock Htr Hp Hconn.
    induction es as [| e' es IH]; intros e h w Hlock Htr Hp Hconn;
      destruct (retry_round e h w Hlock Htr Hp Hconn)
        as (w1 & Hrun & Hlock1 & Htr1 & Hp1 & Hconn1 & Hcalls & Hav & Hheld1
            & Hlen & Hint & Hh & Hframe);
      rewrite (retry_rounds_step e _ h w w1 (Htr h Hp) Hrun).
    - simpl. rewrite !Nat.add_0_r.
      repeat (split; [first [assumption | lia] |]).
      exact Hframe.
    - destruct (IH e' (length (tasks w)) w1 Hlock1 Htr1 Hp1 Hconn1)
        as (Hc & Ha & Hhc & Hl & Hi' & Hrt & Htr' & Hp' & Hh' & Hran & Hfr).
      simpl length. rewrite Hlen in *.
      replace (length (tasks w) + S (length es))%nat
        with (S (length (tasks w)) + length es)%nat by lia.
      split; [lia |].
      split; [exact Ha |].
      split; [exact Hhc |].
      split; [exact Hl |].
      split; [congruence |].
      split; [exact Hrt |].
      split; [exact Htr' |].
      split; [exact Hp' |].
      split; [exact (Hfr h RetryConnect Hh) |].
      split.
      + intros i Hi.
        destruct (decide (i = length (tasks w))) as [-> | Hne];
          [exact Hh' | apply Hran; lia].
      + intros i c Hi. exact (Hfr i c (Hframe i c Hi)). }
  destruct Hgen as (Hc & Ha & Hhc & Hl & Hi & Hrt & Htr' & Hp' & Hh & Hran & _).
  repeat (split; [assumption |]).
  split; [| split; assumption].
  intros h'. split; [| intros ->; exact Hp'].
  intros Hq. specialize (Htr' h' Hq). congruence.
Qed.

Lemma retry_chain_witness :
  connect_calls (retry_rounds [TimeoutError; BleakError] awaiting_retry)
    = (connect_calls awaiting_retry + 2)%nat /\
  _available (self (retry_rounds [TimeoutError; BleakError] awaiting_retry))
    = false /\
  holds_connection (retry_rounds [TimeoutError; BleakError] awaiting_retry)
    = false /\
  _connect_lock (self (retry_rounds [TimeoutError; BleakError] awaiting_retry))
    = false /\
  _connection_retry_interval
    (self (retry_rounds [TimeoutError; BleakError] awaiting_retry))
    = _connection_retry_interval (self awaiting_retry) /\
  _retry_task (self (retry_rounds [TimeoutError; BleakError] awaiting_retry))
    = Some (length (tasks awaiting_retry) + 1)%nat /\
  (forall h' : nat,
      pending_retry (retry_rounds [TimeoutError; BleakError] awaiting_retry) h'
      <-> h' = (length (tasks awaiting_retry) + 1)%nat) /\
  tasks (retry_rounds [TimeoutError; BleakError] awaiting_retry) !! 0%nat
    = Some (Task RetryConnect Cancelled) /\
  (forall i : nat,
      (length (tasks awaiting_retry) <= i < length (tasks awaiting_retry) + 1)%nat ->
      tasks (retry_rounds [TimeoutError; BleakError] awaiting_retry) !! i
        = Some (Task RetryConnect Cancelled)).
Proof.
  apply (retry_chain TimeoutError [BleakError] 0 awaiting_retry).
  - reflexivity.
  - exact awaiting_retry_tracked.
  - reflexivity.
  - reflexivity.
Defined.

(** ** The idle timeout and the disconnect path *)

(** X13. The idle timer's callback on an entity that holds a connected
    client only creates one task running the disconnect path; once that task
    has run with a close call that succeeds, the client is closed, the entity
    holds no connection and is unavailable, one close call was made, and the
    stored weight is the one it was.  On an entity that holds no connected
    client the callback changes nothing. *)
Theorem idle_timeout (c : nat) (w : world) :
  _client (self w) = Some c ->
  connected_at c w = true ->
  let w1 := fst (disconnect w) in
  let w2 := fst (_disconnect (Ret tt) w1) in
  disconnect w = (set_tasks (tasks w ++ [Task Disconnect Pending]) w, Ret tt) /\
  connected_at c w2 = false /\
  holds_connection w2 = false /\
  _available (self w2) = false /\
  close_calls w2 = S (close_calls w) /\
  _state (self w2) = _state (self w) /\
  disconnect w2 = (w2, Ret tt).
Proof.
  intros Hc Hconn w1 w2.
  assert (Hh : holds_connection w = true)
    by (unfold holds_connection; rewrite Hc; exact Hconn).
  assert (H1 : disconnect w
               = (set_tasks (tasks w ++ [Task Disconnect Pending]) w, Ret tt))
    by (rewrite disconnect_world, Hh; reflexivity).
  subst w2 w1. rewrite H1. simpl fst. rewrite _disconnect_world. simpl fst.
  split; [reflexivity |].
  split.
  { unfold connected_at. simpl. rewrite Hc. simpl.
    rewrite list_lookup_alter_eq. destruct (clients w !! c); reflexivity. }
  split; [reflexivity |].
  split; [reflexivity |].
  split; [simpl; rewrite Hc; reflexivity |].
  split; [reflexivity |].
  rewrite disconnect_world. reflexivity.
Qed.

Lemma idle_timeout_witness :
  let w1 := fst (disconnect connected_world) in
  let w2 := fst (_disconnect (Ret tt) w1) in
  disconnect connected_world
    = (set_tasks (tasks connected_world ++ [Task Disconnect Pending])
                 connected_world, Ret tt) /\
  connected_at 0 w2 = false /\
  holds_connection w2 = false /\
  _available (self w2) = false /\
  close_calls w2 = S (close_calls connected_world) /\
  _state (self w2) = _state (self connected_world) /\
  disconnect w2 = (w2, Ret tt).
Proof. apply (idle_timeout 0 connected_world); reflexivity. Defined.

(** X14. The disconnect path, whatever the close call answers: it pushes one
    state to the host, the stored weight marked unavailable; it makes one
    close call when a client is held and none otherwise; and it leaves the
    stored weight, every timer, every task, the lock and the connect count as
    they were. *)
Theorem disconnect_path_frame (r : outcome unit) (w : world) :
  exists w' : world,
    _disconnect r w = (w', Ret tt) /\
    written w' = written w ++ [(_state (self w), false)] /\
    close_calls w' = match _client (self w) with
                     | Some _ => S (close_calls w)
                     | None => close_calls w
                     end /\
    _state (self w') = _state (self w) /\
    timers w' = timers w /\
    _disconnect_timer (self w') = _disconnect_timer (self w) /\
    tasks w' = tasks w /\
    _retry_task (self w') = _retry_task (self w) /\
    _connect_lock (self w') = _connect_lock (self w) /\
    connect_calls w' = connect_calls w /\
    length (clients w') = length (clients w).
Proof.
  exists (disconnected r w).
  split; [exact (_disconnect_world r w) |].
  repeat (split; [reflexivity |]).
  simpl. destruct (_client (self w)) as [c |], r as [[] | e]; simpl;
    rewrite ?length_alter; reflexivity.
Qed.

(** ** The unique id *)

Lemma append_inj_r (p s1 s2 : string) : p +:+ s1 = p +:+ s2 -> s1 = s2.
Proof.
  induction p as [| a p IH]; simpl; intros H; [exact H |].
  injection H as H. exact (IH H).
Qed.

(** X15. Two entities have the same unique id only if they were created for
    the same address, whatever each has gone through since. *)
Theorem unique_id_determines_address
    (globals : gmap string pyobj) (evs1 evs2 : list event) (a1 a2 : string) :
  unique_id (run globals evs1 (__init__ a1))
    = unique_id (run globals evs2 (__init__ a2)) ->
  a1 = a2.
Proof.
  unfold unique_id.
  rewrite (address_run globals evs1 _ (steady_init a1)).
  rewrite (address_run globals evs2 _ (steady_init a2)).
  simpl _address. exact (append_inj_r _ a1 a2).
Qed.

Lemma unique_id_determines_address_witness :
  "C8:B2:1E:00:00:01"%string = "C8:B2:1E:00:00:01"%string.
Proof.
  apply (unique_id_determines_address module_globals
           [Poll (Ret tt) (Ret tt)] [] "C8:B2:1E:00:00:01" "C8:B2:1E:00:00:01").
  reflexivity.
Defined.

(** ** Callers of [connect] and the lock *)

Lemma connect_resume_connect_none (c : nat) (w : world) :
  _client (self w) = None ->
  connect_resume_connect c (Ret tt) w = (failed (linked c w), Ret Returned).
Proof.
  intros Hc. unfold connect_resume_connect.
  unfold mbind at 1 2 3, stmt_bind at 1 2 3, modify, assign, get. simpl.
  rewrite Hc. exact (connect_except_release AttributeError (linked c w)).
Qed.

Lemma lock_owned_initial (s : system) : initial s -> lock_owned s.
Proof. intros (Hlock & _) Hl. congruence. Qed.

Lemma lock_owned_step (s s' : system) : lock_owned s -> step s s' -> lock_owned s'.
Proof.
  intros Hown Hstep.
  destruct Hstep as [s i w' pc' Hi Hrun | s i c r w' pc' Hi Hrun
                    | s i c r w' pc' Hi Hrun | s c].
  - destruct (_connect_lock (self (sys_world s))) eqn:Hl.
    + rewrite (connect_begin_locked _ Hl) in Hrun. injection Hrun as <- <-.
      rewrite (list_insert_id _ _ _ Hi). destruct s. exact Hown.
    + destruct (holds_connection (sys_world s)) eqn:Hconn.
      * rewrite (connect_begin_connected _ Hl Hconn) in Hrun.
        injection Hrun as <- <-. intros Hl'. simpl in Hl'. congruence.
      * rewrite (connect_begin_free _ Hl Hconn) in Hrun.
        injection Hrun as <- <-. intros _.
        exists i, (AwaitConnect (length (clients (sys_world s)))).
        split; [| exact I]. simpl. apply list_lookup_insert_Some. left.
        apply lookup_lt_Some in Hi. auto.
  - destruct r as [[] | e].
    + destruct (_client (self (sys_world s))) as [c' |] eqn:Hc.
      * rewrite (connect_resume_connect_ok c c' _ Hc) in Hrun.
        injection Hrun as <- <-. intros _.
        exists i, (AwaitStartNotify c').
        split; [| exact I]. simpl. apply list_lookup_insert_Some. left.
        apply lookup_lt_Some in Hi. auto.
      * rewrite (connect_resume_connect_none c _ Hc) in Hrun.
        injection Hrun as <- <-. intros Hl'. discriminate Hl'.
    + rewrite connect_resume_connect_raise in Hrun.
      injection Hrun as <- <-. intros Hl'. discriminate Hl'.
  - destruct r as [[] | e].
    + rewrite connect_resume_notify_ok in Hrun.
      injection Hrun as <- <-. intros Hl'. discriminate Hl'.
    + rewrite connect_resume_notify_raise in Hrun.
      injection Hrun as <- <-. intros Hl'. discriminate Hl'.
  - exact Hown.
Qed.

Lemma lock_owned_reachable (s0 s : system) :
  initial s0 -> rtc step s0 s -> lock_owned s.
Proof.
  intros Hinit Hsteps. apply lock_owned_initial in Hinit.
  induction Hsteps as [| s1 s2 s3 Hstep _ IH]; [exact Hinit |].
  apply IH. exact (lock_owned_step s1 s2 Hinit Hstep).
Qed.

(** X16. The lock of [connect] is never left behind: in every system reached
    from an initial one, with any number of callers, any transport answers
    and any link losses, a held lock is held by a caller that is inside the
    [async with] block; so once every caller has returned the lock is free. *)
Theorem lock_never_left_held (s0 s : system) :
  initial s0 -> rtc step s0 s ->
  (_connect_lock (self (sys_world s)) = true ->
   exists (i : nat) (pc : connect_pc),
     callers s !! i = Some pc /\ in_critical pc) /\
  (all_returned s -> _connect_lock (self (sys_world s)) = false).
Proof.
  intros Hinit Hsteps.
  pose proof (lock_owned_reachable s0 s Hinit Hsteps) as Hown.
  split; [exact Hown |].
  intros Hall. destruct (_connect_lock (self (sys_world s))) eqn:Hl; [| reflexivity].
  destruct (Hown Hl) as (i & pc & Hi & Hcrit).
  rewrite (Hall i pc Hi) in Hcrit. destruct Hcrit.
Qed.

Lemma lock_never_left_held_witness :
  (_connect_lock (self (sys_world two_callers_linked)) = true ->
   exists (i : nat) (pc : connect_pc),
     callers two_callers_linked !! i = Some pc /\ in_critical pc) /\
  (all_returned two_callers_linked ->
   _connect_lock (self (sys_world two_callers_linked)) = false).
Proof.
  exact (lock_never_left_held two_callers_start two_callers_linked
           two_callers_initial two_callers_run).
Defined.

Lemma remaining_insert (cs : list connect_pc) (i : nat) (pc pc' : connect_pc) :
  cs !! i = Some pc ->
  (foldr (fun pc n => remaining pc + n) O (<[i := pc']> cs) + remaining pc
   = foldr (fun pc n => remaining pc + n) O cs + remaining pc')%nat.
Proof.
  revert i. induction cs as [| a cs IH]; intros i Hi; [discriminate Hi |].
  destruct i as [| i]; simpl in *.
  - injection Hi as ->. lia.
  - specialize (IH i Hi). lia.
Qed.

Lemma remaining_cases (cs : list connect_pc) :
  (forall (i : nat) (pc : connect_pc), cs !! i = Some pc -> pc = Returned) \/
  (exists (i : nat) (pc : connect_pc), cs !! i = Some pc /\ pc <> Returned).
Proof.
  induction cs as [| a cs [IH | (i & pc & Hi & Hne)]].
  - left. intros i pc Hi. discriminate Hi.
  - destruct a as [| c | c |];
      try (right; exists O; eexists; split; [reflexivity | discriminate]).
    left. intros [| i] pc Hi; simpl in Hi; [congruence | exact (IH i pc Hi)].
  - right. exists (S i), pc. auto.
Qed.

Lemma step_callers_length (s s' : system) :
  step s s' -> length (callers s') = length (callers s).
Proof. intros []; simpl; rewrite ?length_insert; reflexivity. Qed.

(** A caller inside the block returns when the awaited call fails. *)
Lemma critical_caller_steps (s : system) (i : nat) (pc : connect_pc) :
  callers s !! i = Some pc -> in_critical pc ->
  exists s' : system, step s s' /\ (remaining_all s' < remaining_all s)%nat.
Proof.
  intros Hi Hcrit.
  pose proof (remaining_insert (callers s) i pc Returned Hi) as Hrem.
  destruct pc as [| c | c |]; try destruct Hcrit.
  - exists (System (failed (sys_world s)) (<[i := Returned]> (callers s))).
    split.
    + exact (step_connect s i c (Raise TimeoutError) _ _ Hi
               (connect_resume_connect_raise c TimeoutError (sys_world s))).
    + unfold remaining_all. simpl in *. lia.
  - exists (System (failed (sys_world s)) (<[i := Returned]> (callers s))).
    split.
    + exact (step_notify s i c (Raise TimeoutError) _ _ Hi
               (connect_resume_notify_raise c TimeoutError (sys_world s))).
    + unfold remaining_all. simpl in *. lia.
Qed.

Lemma some_caller_steps (s : system) :
  lock_owned s ->
  (exists (i : nat) (pc : connect_pc), callers s !! i = Some pc /\ pc <> Returned) ->
  exists s' : system, step s s' /\ (remaining_all s' < remaining_all s)%nat.
Proof.
  intros Hown (i & pc & Hi & Hne).
  destruct pc as [| c | c |].
  - destruct (_connect_lock (self (sys_world s))) eqn:Hl.
    + destruct (Hown Hl) as (j & pc & Hj & Hcrit).
      exact (critical_caller_steps s j pc Hj Hcrit).
    + destruct (holds_connection (sys_world s)) eqn:Hconn.
      * pose proof (remaining_insert (callers s) i AtLock Returned Hi) as Hrem.
        exists (System (sys_world s) (<[i := Returned]> (callers s))).
        split.
        -- exact (step_begin s i _ _ Hi
                    (connect_begin_connected (sys_world s) Hl Hconn)).
        -- unfold remaining_all. simpl in *. lia.
      * pose proof (remaining_insert (callers s) i AtLock
                      (AwaitConnect (length (clients (sys_world s)))) Hi) as Hrem.
        exists (System (begun (sys_world s))
                  (<[i := AwaitConnect (length (clients (sys_world s)))]>
                     (callers s))).
        split.
        -- exact (step_begin s i _ _ Hi
                    (connect_begin_free (sys_world s) Hl Hconn)).
        -- unfold remaining_all. simpl in *. lia.
  - exact (critical_caller_steps s i _ Hi I).
  - exact (critical_caller_steps s i _ Hi I).
  - congruence.
Qed.

Lemma callers_return (n : nat) :
  forall s : system,
    remaining_all s = n -> lock_owned s ->
    exists s' : system,
      rtc step s s' /\ all_returned s' /\
      length (callers s') = length (callers s).
Proof.
  induction n as [n IH] using lt_wf_ind. intros s Hn Hown.
  destruct (remaining_cases (callers s)) as [Hall | Hsome].
  - exists s. split; [apply rtc_refl |]. split; [exact Hall | reflexivity].
  - destruct (some_caller_steps s Hown Hsome) as (s1 & Hstep & Hlt).
    destruct (IH (remaining_all s1) ltac:(lia) s1 eq_refl
                 (lock_owned_step s s1 Hown Hstep))
      as (s' & Hsteps & Hall & Hlen).
    exists s'. split; [exact (rtc_l step s s1 s' Hstep Hsteps) |].
    split; [exact Hall |].
    rewrite Hlen. exact (step_callers_length s s1 Hstep).
Qed.

Lemma lock_owned_rtc (s s' : system) :
  lock_owned s -> rtc step s s' -> lock_owned s'.
Proof.
  intros Hown Hsteps.
  induction Hsteps as [| s1 s2 s3 Hstep _ IH]; [exact Hown |].
  apply IH. exact (lock_owned_step s1 s2 Hown Hstep).
Qed.

(** X17. Callers of [connect] never block each other for good: from every
    system reached from an initial one there is a continuation in which every
    caller has returned, and the lock is free then. *)
Theorem callers_can_all_return (s0 s : system) :
  initial s0 -> rtc step s0 s ->
  exists s' : system,
    rtc step s s' /\
    all_returned s' /\
    length (callers s') = length (callers s) /\
    _connect_lock (self (sys_world s')) = false.
Proof.
  intros Hinit Hsteps.
  pose proof (lock_owned_reachable s0 s Hinit Hsteps) as Hown.
  destruct (callers_return (remaining_all s) s eq_refl Hown)
    as (s' & Hsteps' & Hall & Hlen).
  exists s'. split; [exact Hsteps' |]. split; [exact Hall |].
  split; [exact Hlen |].
  pose proof (lock_owned_rtc s s' Hown Hsteps') as Hown'.
  destruct (_connect_lock (self (sys_world s'))) eqn:Hl; [| reflexivity].
  destruct (Hown' Hl) as (i & pc & Hi & Hcrit).
  rewrite (Hall i pc Hi) in Hcrit. destruct Hcrit.
Qed.

Lemma callers_can_all_return_witness :
  exists s' : system,
    rtc step two_callers_linked s' /\
    all_returned s' /\
    length (callers s') = length (callers two_callers_linked) /\
    _connect_lock (self (sys_world s')) = false.
Proof.
  exact (callers_can_all_return two_callers_start two_callers_linked
           two_callers_initial two_callers_run).
Defined.

(** ** Reconnecting after the disconnect path *)

Lemma disconnected_clients_length (r : outcome unit) (w : world) :
  length (clients (disconnected r w)) = length (clients w).
Proof.
  simpl. destruct (_client (self w)) as [c |], r as [[] | e]; simpl;
    rewrite ?length_alter; reflexivity.
Qed.

Lemma connected_at_reconnected (c : nat) (w : world) :
  (c < length (clients w))%nat ->
  connected_at c (armed (length (clients w))
                    (linked (length (clients w)) (begun w)))
  = connected_at c w.
Proof.
  intros Hlt. unfold connected_at. simpl.
  rewrite !list_lookup_alter_ne by lia.
  rewrite lookup_app_l by exact Hlt. reflexivity.
Qed.

(** X18. The disconnect path forgets the client whether or not the close
    call succeeded, and the next poll opens a new connection without looking
    at the old client.  So on an entity that held a connected client, after
    the disconnect path and a poll answered well, the entity holds a new
    connected client and is available with the weight it had stored; the old
    client is closed if the close call succeeded, and is still connected
    beside the new one if that call raised. *)
Theorem poll_after_disconnect (r : outcome unit) (c : nat) (w : world) :
  _connect_lock (self w) = false ->
  _client (self w) = Some c ->
  connected_at c w = true ->
  let w1 := fst (_disconnect r w) in
  let w2 := fst (async_update (Ret tt) (Ret tt) w1) in
  _client (self w2) = Some (length (clients w)) /\
  c <> length (clients w) /\
  connected_at (length (clients w)) w2 = true /\
  _available (self w2) = true /\
  _state (self w2) = _state (self w) /\
  connect_calls w2 = S (connect_calls w) /\
  connected_at c w2 = match r with Ret _ => false | Raise _ => true end.
Proof.
  intros Hlock Hc Hconn w1 w2.
  assert (Hlt : (c < length (clients w))%nat).
  { unfold connected_at in Hconn.
    destruct (clients w !! c) eqn:Hl; [| discriminate Hconn].
    exact (lookup_lt_Some _ _ _ Hl). }
  pose proof (disconnected_clients_length r w) as Hn.
  subst w2 w1. rewrite _disconnect_world. cbn [fst].
  rewrite (async_update_not_connected _ _ (disconnected r w) eq_refl).
  rewrite (connect_success_world (disconnected r w) Hlock eq_refl).
  cbn [fst]. rewrite <- Hn.
  split; [reflexivity |].
  split; [lia |].
  split; [exact (connect_success_holds (disconnected r w)) |].
  split; [reflexivity |].
  split; [reflexivity |].
  split; [reflexivity |].
  rewrite connected_at_reconnected by lia.
  unfold connected_at in *. simpl. rewrite Hc.
  destruct r as [[] | e]; simpl.
  - rewrite list_lookup_alter_eq. destruct (clients w !! c); reflexivity.
  - exact Hconn.
Qed.

Lemma poll_after_disconnect_witness :
  let w1 := fst (_disconnect (Raise BleakError) connected_world) in
  let w2 := fst (async_update (Ret tt) (Ret tt) w1) in
  _client (self w2) = Some (length (clients connected_world)) /\
  0%nat <> length (clients connected_world) /\
  connected_at (length (clients connected_world)) w2 = true /\
  _available (self w2) = true /\
  _state (self w2) = _state (self connected_world) /\
  connect_calls w2 = S (connect_calls connected_world) /\
  connected_at 0 w2 = true.
Proof.
  apply (poll_after_disconnect (Raise BleakError) 0 connected_world);
    reflexivity.
Defined.
